(** * SystemAudio: the matrix-mixing engine and its ownership utilities

    A shallow embedding of [Sources/SystemAudio/SystemAudioMixer.cpp] and
    [Sources/SystemAudio/SystemAudioUtilities.hpp].

    - Machine integers are [Z] with the wrap-around written out.
    - [Float64] is IEEE-754 binary64 as specified by [SpecFloat]
      (precision 53, maximal exponent 1024); [Float32] is binary32.
    - The hosting platform (AudioToolbox) is an interface: a record of
      state transformers over an arbitrary world.  Every call the mixer
      makes is also recorded, with its reply, in a call log.
    - Buffer lists live in a store addressed by pointers; the render
      callback updates that store in place. *)

From stdpp Require Import base list gmap.
From Stdlib Require Import ZArith Lia Bool.
From Stdlib Require Import Floats.SpecFloat.

Local Open Scope Z_scope.

(** ** Machine integers and pointers *)

Definition UInt32 := Z.
Definition SInt32 := Z.

Definition is_UInt32 (z : Z) : Prop := 0 <= z < 2 ^ 32.
Definition is_SInt32 (z : Z) : Prop := - 2 ^ 31 <= z < 2 ^ 31.

(** Conversion to an unsigned 32-bit value, and two's complement wrap of a
    signed 32-bit result. *)
Definition to_UInt32 (z : Z) : UInt32 := z mod 2 ^ 32.
Definition to_SInt32 (z : Z) : SInt32 := (z + 2 ^ 31) mod 2 ^ 32 - 2 ^ 31.

Definition ptr := Z.
Definition nullptr : ptr := 0.

(** ** Floating point *)

Definition Float64 := spec_float.
Definition Float32 := spec_float.

Definition f64_zero : Float64 := S754_zero false.

(** [double + double] *)
Definition f64_add : Float64 -> Float64 -> Float64 := SFadd 53 1024.

(** Integer to [double] conversion (round to nearest even). *)
Definition f64_of_Z (z : Z) : Float64 := binary_normalize 53 1024 z 0 false.

(** The whole number a [double] denotes, when it denotes one. *)
Definition f64_to_Z (x : Float64) : option Z :=
  match x with
  | S754_zero _ => Some 0
  | S754_finite s m e =>
      if 0 <=? e then Some (cond_Zopp s (Zpos m * 2 ^ e))
      else if Zpos m mod 2 ^ (- e) =? 0 then Some (cond_Zopp s (Zpos m / 2 ^ (- e)))
      else None
  | _ => None
  end.

(** [x <= y] on [double]s. *)
Definition f64_le (x y : Float64) : Prop := SFleb x y = true.

(** The values a sample clock takes: +0, a normal positive [double] that is
    at least 1, or +infinity. *)
Definition clockValue (x : Float64) : Prop :=
  x = S754_zero false \/ x = S754_infinity false \/
  exists m e, x = S754_finite false m e /\ Zpos (Pos.size m) = 53 /\ -52 <= e <= 971.

(** The literal [1.0] as an [AudioUnitParameterValue] (a [Float32]). *)
Definition f32_one : Float32 := SFone 24 128.

(** ** CoreAudio types

    The declarations below come from the platform headers
    ([AudioToolbox/AudioToolbox.h]); only the parts the mixer names are
    modelled. *)

Definition OSStatus := SInt32.

(** Modelled from the spec: the platform's status codes are not declared in
    the sources; the spec describes them as a zero/success sentinel plus
    framework-defined error codes for a bad parameter and for a capability
    that is not found.  The two error values are those of the platform
    headers; only their being different from [noErr] is ever used. *)
Definition noErr : OSStatus := 0.
Definition kAudio_ParamError : OSStatus := -50.
Definition kAudioUnitErr_ExtensionNotFound : OSStatus := -66744.

Definition AudioComponent := ptr.
Definition AudioUnit := ptr.

Record AudioComponentDescription := {
  componentType : UInt32;
  componentSubType : UInt32;
  componentManufacturer : UInt32;
  componentFlags : UInt32;
  componentFlagsMask : UInt32
}.

(** Four-character codes 'aumx', 'mxmx' and 'appl'. *)
Definition kAudioUnitType_Mixer : UInt32 := 0x61756d78.
Definition kAudioUnitSubType_MatrixMixer : UInt32 := 0x6d786d78.
Definition kAudioUnitManufacturer_Apple : UInt32 := 0x6170706c.

Record AudioStreamBasicDescription := {
  mSampleRate : Float64;
  mFormatID : UInt32;
  mFormatFlags : UInt32;
  mBytesPerPacket : UInt32;
  mFramesPerPacket : UInt32;
  mBytesPerFrame : UInt32;
  mChannelsPerFrame : UInt32;
  mBitsPerChannel : UInt32
}.

(** [AudioTimeStamp]; the SMPTE time and the reserved word, which the mixer
    only zeroes, are left out. *)
Record AudioTimeStamp := {
  mSampleTime : Float64;
  mHostTime : Z;
  mRateScalar : Float64;
  mWordClockTime : Z;
  mFlags : UInt32
}.

Definition kAudioTimeStampSampleTimeValid : UInt32 := 1.

Record AudioBuffer := {
  mNumberChannels : UInt32;
  mDataByteSize : UInt32;
  mData : ptr
}.

(** A buffer list: the count field and the variable-length array that
    follows it in memory. *)
Record AudioBufferList := {
  mNumberBuffers : UInt32;
  mBuffers : list AudioBuffer
}.

Inductive AudioUnitScope :=
  | kAudioUnitScope_Global
  | kAudioUnitScope_Input
  | kAudioUnitScope_Output.

Inductive AudioUnitPropertyID :=
  | kAudioUnitProperty_BusCount
  | kAudioUnitProperty_StreamFormat
  | kAudioUnitProperty_ShouldAllocateBuffer
  | kAudioUnitProperty_SetRenderCallback.

Inductive AudioUnitParameterID :=
  | kMatrixMixerParam_Volume.

(** The data handed to [AudioUnitSetProperty] ([inData], [inDataSize]). *)
Inductive PropertyData :=
  | PropUInt32 (v : UInt32)
  | PropStreamFormat (asbd : AudioStreamBasicDescription)
  | PropRenderCallback.   (* { .inputProc = renderCallback, .inputProcRefCon = this } *)

(** ** Memory

    Buffer lists are addressed by pointer; sample memory is a separate
    region of bytes. *)

Record Memory := {
  bufferLists : gmap ptr AudioBufferList;
  sampleBytes : gmap ptr Z
}.

Definition storeBufferList (p : ptr) (abl : AudioBufferList) (mem : Memory) : Memory :=
  {| bufferLists := <[p := abl]> (bufferLists mem); sampleBytes := sampleBytes mem |}.

(** [outBuffer.mData = v] for the buffer at index [i] of a list. *)
Definition setData (abl : AudioBufferList) (i : nat) (v : ptr) : AudioBufferList :=
  {| mNumberBuffers := mNumberBuffers abl;
     mBuffers := alter (fun b => {| mNumberChannels := mNumberChannels b;
                                    mDataByteSize := mDataByteSize b;
                                    mData := v |}) i (mBuffers abl) |}.

(** ** The platform interface *)

(** An input procedure with its reference constant already bound:
    [ioActionFlags], [inTimeStamp], [inBusNumber], [inNumberFrames],
    [ioData].  [None] stands for undefined behaviour (a wild pointer). *)
Definition InputProc : Type :=
  ptr -> AudioTimeStamp -> UInt32 -> UInt32 -> ptr -> Memory -> option (OSStatus * Memory).

Record AudioToolbox (World : Type) := {
  AudioComponentFindNext :
    AudioComponent -> AudioComponentDescription -> World -> AudioComponent * World;
  (* the second argument is what [*outInstance] holds before the call, the
     second result what it holds afterwards *)
  AudioComponentInstanceNew :
    AudioComponent -> AudioUnit -> World -> OSStatus * AudioUnit * World;
  AudioUnitSetProperty :
    AudioUnit -> AudioUnitPropertyID -> AudioUnitScope -> UInt32 -> PropertyData ->
    World -> OSStatus * World;
  AudioUnitSetParameter :
    AudioUnit -> AudioUnitParameterID -> AudioUnitScope -> UInt32 -> Float32 -> UInt32 ->
    World -> OSStatus * World;
  AudioUnitInitialize : AudioUnit -> World -> OSStatus * World;
  AudioUnitUninitialize : AudioUnit -> World -> OSStatus * World;
  AudioComponentInstanceDispose : AudioUnit -> World -> OSStatus * World;
  AudioUnitRender :
    AudioUnit -> ptr -> AudioTimeStamp -> UInt32 -> UInt32 -> ptr -> InputProc ->
    World -> Memory -> OSStatus * World * Memory
}.

Arguments AudioComponentFindNext {World}.
Arguments AudioComponentInstanceNew {World}.
Arguments AudioUnitSetProperty {World}.
Arguments AudioUnitSetParameter {World}.
Arguments AudioUnitInitialize {World}.
Arguments AudioUnitUninitialize {World}.
Arguments AudioComponentInstanceDispose {World}.
Arguments AudioUnitRender {World}.

(** Calls made to the platform, and what it answered. *)
Inductive Call :=
  | CallFindNext (prev : AudioComponent) (desc : AudioComponentDescription)
  | CallInstanceNew (comp : AudioComponent)
  | CallSetProperty (unit : AudioUnit) (id : AudioUnitPropertyID) (scope : AudioUnitScope)
      (element : UInt32) (data : PropertyData)
  | CallSetParameter (unit : AudioUnit) (id : AudioUnitParameterID) (scope : AudioUnitScope)
      (element : UInt32) (value : Float32) (bufferOffset : UInt32)
  | CallInitialize (unit : AudioUnit)
  | CallUninitialize (unit : AudioUnit)
  | CallInstanceDispose (unit : AudioUnit)
  | CallRender (unit : AudioUnit) (ioActionFlags : ptr) (ts : AudioTimeStamp)
      (bus frames : UInt32) (ioData : ptr).

Inductive Reply :=
  | ReplyComponent (comp : AudioComponent)
  | ReplyInstance (status : OSStatus) (unit : AudioUnit)
  | ReplyStatus (status : OSStatus).

Definition Event : Type := Call * Reply.

(** ** The mixer object *)

Record SystemAudioMixer := {
  mixerUnit_ : AudioUnit;
  mixerInputChannels_ : UInt32;
  mixerOutputChannels_ : UInt32;
  sampleTime_ : Float64;
  renderCallbackInputABL_ : ptr
}.

Definition set_mixerUnit_ (v : AudioUnit) (m : SystemAudioMixer) : SystemAudioMixer :=
  {| mixerUnit_ := v;
     mixerInputChannels_ := mixerInputChannels_ m;
     mixerOutputChannels_ := mixerOutputChannels_ m;
     sampleTime_ := sampleTime_ m;
     renderCallbackInputABL_ := renderCallbackInputABL_ m |}.

Definition set_mixerInputChannels_ (v : UInt32) (m : SystemAudioMixer) : SystemAudioMixer :=
  {| mixerUnit_ := mixerUnit_ m;
     mixerInputChannels_ := v;
     mixerOutputChannels_ := mixerOutputChannels_ m;
     sampleTime_ := sampleTime_ m;
     renderCallbackInputABL_ := renderCallbackInputABL_ m |}.

Definition set_mixerOutputChannels_ (v : UInt32) (m : SystemAudioMixer) : SystemAudioMixer :=
  {| mixerUnit_ := mixerUnit_ m;
     mixerInputChannels_ := mixerInputChannels_ m;
     mixerOutputChannels_ := v;
     sampleTime_ := sampleTime_ m;
     renderCallbackInputABL_ := renderCallbackInputABL_ m |}.

Definition set_sampleTime_ (v : Float64) (m : SystemAudioMixer) : SystemAudioMixer :=
  {| mixerUnit_ := mixerUnit_ m;
     mixerInputChannels_ := mixerInputChannels_ m;
     mixerOutputChannels_ := mixerOutputChannels_ m;
     sampleTime_ := v;
     renderCallbackInputABL_ := renderCallbackInputABL_ m |}.

Definition set_renderCallbackInputABL_ (v : ptr) (m : SystemAudioMixer) : SystemAudioMixer :=
  {| mixerUnit_ := mixerUnit_ m;
     mixerInputChannels_ := mixerInputChannels_ m;
     mixerOutputChannels_ := mixerOutputChannels_ m;
     sampleTime_ := sampleTime_ m;
     renderCallbackInputABL_ := v |}.

(** [SystemAudioMixer::SystemAudioMixer() : sampleTime_(0)].  The other
    members are not initialised: they keep whatever the storage [raw] held. *)
Definition SystemAudioMixer_new (raw : SystemAudioMixer) : SystemAudioMixer :=
  set_sampleTime_ (f64_of_Z 0) raw.

(** ** The zero-copy supply routine *)

(** The body of the [for] loop of [renderCallback], from index [i] on.  The
    loop runs while [i < ioData->mNumberBuffers]; the body writes no count
    field, so [todo] is the number of turns that remain. *)
Fixpoint renderCallback_loop (todo : nat) (i : UInt32) (pThis : SystemAudioMixer)
    (ioData : ptr) (mem : Memory) : option (OSStatus * Memory) :=
  match todo with
  | O => Some (noErr, mem)
  | S todo' =>
      inABL ← bufferLists mem !! renderCallbackInputABL_ pThis;
      outABL ← bufferLists mem !! ioData;
      inBuffer ← mBuffers inABL !! Z.to_nat i;
      outBuffer ← mBuffers outABL !! Z.to_nat i;
      if negb ((mNumberChannels inBuffer =? mNumberChannels outBuffer)
               && (mDataByteSize inBuffer =? mDataByteSize outBuffer))
      then Some (kAudio_ParamError, mem)
      else
        renderCallback_loop todo' (to_UInt32 (i + 1)) pThis ioData
          (storeBufferList ioData (setData outABL (Z.to_nat i) (mData inBuffer)) mem)
  end.

(** [SystemAudioMixer::renderCallback]; [pThis] is [inRefCon]. *)
Definition renderCallback (pThis : SystemAudioMixer) : InputProc :=
  fun ioActionFlags inTimeStamp inBusNumber inNumberFrames ioData mem =>
    inABL ← bufferLists mem !! renderCallbackInputABL_ pThis;
    outABL ← bufferLists mem !! ioData;
    if negb (mNumberBuffers inABL =? mNumberBuffers outABL)
    then Some (kAudio_ParamError, mem)
    else renderCallback_loop (Z.to_nat (mNumberBuffers outABL)) 0 pThis ioData mem.

(** ** Running the mixer against a platform *)

Record Machine (World : Type) := {
  this : SystemAudioMixer;
  world : World;
  memory : Memory;
  calls : list Event
}.

Arguments this {World}.
Arguments world {World}.
Arguments memory {World}.
Arguments calls {World}.

Definition M (World A : Type) : Type := Machine World -> A * Machine World.

Definition ret {World A} (a : A) : M World A := fun s => (a, s).

Definition bind {World A B} (c : M World A) (k : A -> M World B) : M World B :=
  fun s => let '(a, s') := c s in k a s'.

(** [status = c; if (noErr != status) return status;] followed by [k]. *)
Definition orReturn {World} (c k : M World OSStatus) : M World OSStatus :=
  bind c (fun status => if decide (noErr <> status) then ret status else k).

Declare Scope mixer_scope.
Delimit Scope mixer_scope with mixer.

Notation "'let!' x ':=' c 'in' k" := (bind c (fun x => k))
  (at level 10, x name, c at level 100, k at level 200) : mixer_scope.
Notation "'try!' c 'in' k" := (orReturn c k)
  (at level 10, c at level 100, k at level 200) : mixer_scope.

Local Open Scope mixer_scope.

Definition getThis {World} : M World SystemAudioMixer := fun s => (this s, s).

Definition modifyThis {World} (f : SystemAudioMixer -> SystemAudioMixer) : M World unit :=
  fun s => (tt, {| this := f (this s); world := world s; memory := memory s; calls := calls s |}).

Section Calls.
Context {World : Type} (AT : AudioToolbox World).

(** One platform call on the world, recorded with its reply. *)
Definition perform {A} (call : Call) (reply : A -> Reply) (f : World -> A * World)
  : M World A :=
  fun s =>
    let '(a, w) := f (world s) in
    (a, {| this := this s; world := w; memory := memory s;
           calls := calls s ++ [(call, reply a)] |}).

Definition callFindNext (prev : AudioComponent) (desc : AudioComponentDescription)
  : M World AudioComponent :=
  perform (CallFindNext prev desc) ReplyComponent (AudioComponentFindNext AT prev desc).

(** [AudioComponentInstanceNew(comp, &mixerUnit_)] *)
Definition callInstanceNew (comp : AudioComponent) : M World OSStatus :=
  let! me := getThis in
  let! r := perform (CallInstanceNew comp) (fun r => ReplyInstance (fst r) (snd r))
              (fun w => let '(status, unit, w') :=
                          AudioComponentInstanceNew AT comp (mixerUnit_ me) w in
                        ((status, unit), w')) in
  let! _ := modifyThis (set_mixerUnit_ (snd r)) in
  ret (fst r).

Definition callSetProperty (id : AudioUnitPropertyID) (scope : AudioUnitScope)
    (element : UInt32) (data : PropertyData) : M World OSStatus :=
  let! me := getThis in
  perform (CallSetProperty (mixerUnit_ me) id scope element data) ReplyStatus
    (AudioUnitSetProperty AT (mixerUnit_ me) id scope element data).

Definition callSetParameter (id : AudioUnitParameterID) (scope : AudioUnitScope)
    (element : UInt32) (value : Float32) (bufferOffset : UInt32) : M World OSStatus :=
  let! me := getThis in
  perform (CallSetParameter (mixerUnit_ me) id scope element value bufferOffset) ReplyStatus
    (AudioUnitSetParameter AT (mixerUnit_ me) id scope element value bufferOffset).

Definition callInitialize : M World OSStatus :=
  let! me := getThis in
  perform (CallInitialize (mixerUnit_ me)) ReplyStatus (AudioUnitInitialize AT (mixerUnit_ me)).

Definition callUninitialize : M World OSStatus :=
  let! me := getThis in
  perform (CallUninitialize (mixerUnit_ me)) ReplyStatus
    (AudioUnitUninitialize AT (mixerUnit_ me)).

Definition callInstanceDispose : M World OSStatus :=
  let! me := getThis in
  perform (CallInstanceDispose (mixerUnit_ me)) ReplyStatus
    (AudioComponentInstanceDispose AT (mixerUnit_ me)).

(** [AudioUnitRender(mixerUnit_, flags, &ts, bus, frames, ioData)].  The
    unit pulls through the procedure installed by [initialize], that is
    [renderCallback] with [this] as its reference constant. *)
Definition callRender (ioActionFlags : ptr) (ts : AudioTimeStamp) (bus frames : UInt32)
    (ioData : ptr) : M World OSStatus :=
  fun s =>
    let unit := mixerUnit_ (this s) in
    let '(status, w, mem) :=
      AudioUnitRender AT unit ioActionFlags ts bus frames ioData
        (renderCallback (this s)) (world s) (memory s) in
    (status, {| this := this s; world := w; memory := mem;
                calls := calls s ++ [(CallRender unit ioActionFlags ts bus frames ioData,
                                      ReplyStatus status)] |}).
End Calls.

(** ** The mixer's methods *)

Section Methods.
Context {World : Type} (AT : AudioToolbox World).

(** [SystemAudioMixer::configureMixer] *)
Definition configureMixer : M World OSStatus :=
  (* Using one input and output bus *)
  let inputBusses := 1 in
  try! callSetProperty AT kAudioUnitProperty_BusCount kAudioUnitScope_Input 0
         (PropUInt32 inputBusses) in
  let outputBusses := 1 in
  try! callSetProperty AT kAudioUnitProperty_BusCount kAudioUnitScope_Output 0
         (PropUInt32 outputBusses) in
  ret noErr.

(** [SystemAudioMixer::configureStreamFormats] *)
Definition configureStreamFormats (inputASBD outputASBD : AudioStreamBasicDescription)
  : M World OSStatus :=
  (* input *)
  try! callSetProperty AT kAudioUnitProperty_StreamFormat kAudioUnitScope_Input 0
         (PropStreamFormat inputASBD) in
  let! _ := modifyThis (set_mixerInputChannels_ (mChannelsPerFrame inputASBD)) in
  (* output *)
  try! callSetProperty AT kAudioUnitProperty_StreamFormat kAudioUnitScope_Output 0
         (PropStreamFormat outputASBD) in
  let! _ := modifyThis (set_mixerOutputChannels_ (mChannelsPerFrame outputASBD)) in
  ret noErr.

(** The loops of [initialize] that set the volume of every channel of a
    scope to 1: [for (UInt32 i = ...; i < count; i++)] with [todo] turns
    left, returning at the first failure. *)
Fixpoint setChannelVolumes (scope : AudioUnitScope) (todo : nat) (i : UInt32)
  : M World OSStatus :=
  match todo with
  | O => ret noErr
  | S todo' =>
      try! callSetParameter AT kMatrixMixerParam_Volume scope i f32_one 0 in
      setChannelVolumes scope todo' (to_UInt32 (i + 1))
  end.

Definition mixerDesc : AudioComponentDescription :=
  {| componentType := kAudioUnitType_Mixer;
     componentSubType := kAudioUnitSubType_MatrixMixer;
     componentManufacturer := kAudioUnitManufacturer_Apple;
     componentFlags := 0;
     componentFlagsMask := 0 |}.

(** [SystemAudioMixer::initialize] *)
Definition initialize (inputASBD outputASBD : AudioStreamBasicDescription)
  : M World OSStatus :=
  let! mixerComp := callFindNext AT nullptr mixerDesc in
  if decide (mixerComp = nullptr) then ret kAudioUnitErr_ExtensionNotFound else
  try! callInstanceNew AT mixerComp in
  try! configureMixer in
  try! configureStreamFormats inputASBD outputASBD in
  (* pass input ABL data to AudioUnitRender without copying *)
  let shouldAllocateBuffer := 0 in
  try! callSetProperty AT kAudioUnitProperty_ShouldAllocateBuffer kAudioUnitScope_Input 0
         (PropUInt32 shouldAllocateBuffer) in
  try! callSetProperty AT kAudioUnitProperty_SetRenderCallback kAudioUnitScope_Global 0
         PropRenderCallback in
  try! callInitialize AT in
  (* set global mixer volume to 1.0 *)
  try! callSetParameter AT kMatrixMixerParam_Volume kAudioUnitScope_Global 0xFFFFFFFF
         f32_one 0 in
  (* set all input and output volumes to 1 *)
  let! me := getThis in
  try! setChannelVolumes kAudioUnitScope_Input (Z.to_nat (mixerInputChannels_ me)) 0 in
  try! setChannelVolumes kAudioUnitScope_Output (Z.to_nat (mixerOutputChannels_ me)) 0 in
  ret noErr.

(** [SystemAudioMixer::uninitialize] *)
Definition uninitialize : M World OSStatus :=
  try! callUninitialize AT in
  try! callInstanceDispose AT in
  ret noErr.

(** [(inputChannelIndex << 16) | outputChannelIndex] on [int], converted
    to the unsigned [AudioUnitElement]. *)
Definition crosspointElement (inputChannelIndex outputChannelIndex : SInt32) : UInt32 :=
  to_UInt32 (Z.lor (to_SInt32 (Z.shiftl inputChannelIndex 16)) outputChannelIndex).

(** [SystemAudioMixer::setCrossoverVolume] *)
Definition setCrossoverVolume (inputChannelIndex outputChannelIndex : SInt32)
    (volume : Float32) : M World OSStatus :=
  try! callSetParameter AT kMatrixMixerParam_Volume kAudioUnitScope_Global
         (crosspointElement inputChannelIndex outputChannelIndex) volume 0 in
  ret noErr.

(** [SystemAudioMixer::mix] *)
Definition mix (inNumberFrames : UInt32) (inputABL outputABL : ptr) : M World OSStatus :=
  let! me := getThis in
  let ts := {| mSampleTime := sampleTime_ me;
               mHostTime := 0;
               mRateScalar := f64_zero;
               mWordClockTime := 0;
               mFlags := kAudioTimeStampSampleTimeValid |} in
  let! _ := modifyThis (set_renderCallbackInputABL_ inputABL) in
  let! status := callRender AT nullptr ts 0 (* bus 0 *) inNumberFrames outputABL in
  let! _ := (if decide (noErr = status)
             then modifyThis (fun m => set_sampleTime_
                                (f64_add (sampleTime_ m) (f64_of_Z inNumberFrames)) m)
             else ret tt) in
  ret status.
End Methods.

(** ** Sequences of operations on one mixer *)

Inductive Op :=
  | OpInitialize (inputASBD outputASBD : AudioStreamBasicDescription)
  | OpUninitialize
  | OpSetCrossoverVolume (inputChannelIndex outputChannelIndex : SInt32) (volume : Float32)
  | OpMix (inNumberFrames : UInt32) (inputABL outputABL : ptr).

Definition runOp {World} (AT : AudioToolbox World) (op : Op) : M World OSStatus :=
  match op with
  | OpInitialize inputASBD outputASBD => initialize AT inputASBD outputASBD
  | OpUninitialize => uninitialize AT
  | OpSetCrossoverVolume i j volume => setCrossoverVolume AT i j volume
  | OpMix inNumberFrames inputABL outputABL => mix AT inNumberFrames inputABL outputABL
  end.

Fixpoint runOps {World} (AT : AudioToolbox World) (ops : list Op)
  : M World (list OSStatus) :=
  match ops with
  | [] => ret []
  | op :: ops' =>
      let! status := runOp AT op in
      let! statuses := runOps AT ops' in
      ret (status :: statuses)
  end.

(** The frames of the [mix] calls that returned [noErr]. *)
Fixpoint framesRendered (ops : list Op) (statuses : list OSStatus) : Z :=
  match ops, statuses with
  | op :: ops', status :: statuses' =>
      match op with
      | OpMix inNumberFrames _ _ => if decide (status = noErr) then inNumberFrames else 0
      | _ => 0
      end + framesRendered ops' statuses'
  | _, _ => 0
  end.

Definition opFramesValid (op : Op) : Prop :=
  match op with
  | OpMix inNumberFrames _ _ => is_UInt32 inNumberFrames
  | _ => True
  end.

(** ** Reading the call log *)

(** The status a reply stands for: a null component is the discovery
    failure of [initialize]. *)
Definition replyStatus (r : Reply) : OSStatus :=
  match r with
  | ReplyComponent comp =>
      if decide (comp = nullptr) then kAudioUnitErr_ExtensionNotFound else noErr
  | ReplyInstance status _ => status
  | ReplyStatus status => status
  end.

Definition succeeded (ev : Event) : Prop := replyStatus (snd ev) = noErr.

(** The component discovery answered with, if the log starts with one. *)
Definition foundComponent (evs : list Event) : AudioComponent :=
  match evs with
  | (_, ReplyComponent comp) :: _ => comp
  | _ => nullptr
  end.

#[global] Instance AudioUnitScope_eq_dec : EqDecision AudioUnitScope.
Proof. solve_decision. Defined.

(** What a recording double holds for a volume: the value of the latest
    successful parameter set on that scope and element, if there is one. *)
Fixpoint recordedVolume (log : list Event) (scope : AudioUnitScope) (element : UInt32)
  : option Float32 :=
  match log with
  | [] => None
  | ev :: rest =>
      match recordedVolume rest scope element with
      | Some v => Some v
      | None =>
          match ev with
          | (CallSetParameter _ kMatrixMixerParam_Volume sc el v _, reply) =>
              if decide (sc = scope /\ el = element /\ replyStatus reply = noErr)
              then Some v else None
          | _ => None
          end
      end
  end.

(** The calls of a complete [initialize], in order, as the specification
    lists them: discovery, instance creation, one input and one output bus,
    the two stream formats, no buffer allocation on the input scope, the
    pull source, activation, and unity for the global gain and for every
    input and output channel. *)
Definition volumeCalls (unit : AudioUnit) (scope : AudioUnitScope) (channels : UInt32)
  : list Call :=
  (fun i => CallSetParameter unit kMatrixMixerParam_Volume scope i f32_one 0)
    <$> seqZ 0 channels.

Definition initializePlan (comp : AudioComponent) (unit : AudioUnit)
    (inputASBD outputASBD : AudioStreamBasicDescription) : list Call :=
  [ CallFindNext nullptr mixerDesc;
    CallInstanceNew comp;
    CallSetProperty unit kAudioUnitProperty_BusCount kAudioUnitScope_Input 0 (PropUInt32 1);
    CallSetProperty unit kAudioUnitProperty_BusCount kAudioUnitScope_Output 0 (PropUInt32 1);
    CallSetProperty unit kAudioUnitProperty_StreamFormat kAudioUnitScope_Input 0
      (PropStreamFormat inputASBD);
    CallSetProperty unit kAudioUnitProperty_StreamFormat kAudioUnitScope_Output 0
      (PropStreamFormat outputASBD);
    CallSetProperty unit kAudioUnitProperty_ShouldAllocateBuffer kAudioUnitScope_Input 0
      (PropUInt32 0);
    CallSetProperty unit kAudioUnitProperty_SetRenderCallback kAudioUnitScope_Global 0
      PropRenderCallback;
    CallInitialize unit;
    CallSetParameter unit kMatrixMixerParam_Volume kAudioUnitScope_Global 0xFFFFFFFF
      f32_one 0 ]
  ++ volumeCalls unit kAudioUnitScope_Input (mChannelsPerFrame inputASBD)
  ++ volumeCalls unit kAudioUnitScope_Output (mChannelsPerFrame outputASBD).

(** A run of calls that stops at its first failure: either every call
    succeeded, or all but the last did and the last one's status is the
    status returned. *)
Definition stopsAtFirstFailure (status : OSStatus) (evs : list Event) : Prop :=
  (status = noErr /\ Forall succeeded evs) \/
  (status <> noErr /\
   exists done ev, evs = done ++ [ev] /\ Forall succeeded done /\ replyStatus (snd ev) = status).

(** The members that only [AudioComponentInstanceNew] and [mix] write. *)
Definition sameIdentity (m m' : SystemAudioMixer) : Prop :=
  mixerUnit_ m' = mixerUnit_ m /\
  sampleTime_ m' = sampleTime_ m /\
  renderCallbackInputABL_ m' = renderCallbackInputABL_ m.

(** Started in [s], the computation [c] makes the calls of [plan] in order
    and stops at the first one that fails; when all succeed the mixer
    satisfies [Q].  It leaves the memory alone. *)
Definition followsPlan {World} (c : M World OSStatus) (s : Machine World)
    (plan : list Call) (Q : SystemAudioMixer -> Prop) : Prop :=
  exists evs,
    calls (c s).2 = calls s ++ evs /\
    stopsAtFirstFailure (c s).1 evs /\
    (fst <$> evs) `prefix_of` plan /\
    ((c s).1 = noErr -> fst <$> evs = plan /\ Q (this (c s).2)) /\
    memory (c s).2 = memory s /\
    sameIdentity (this s) (this (c s).2).

(** The computation [c] does not write the sample clock. *)
Definition keepsClock {World A} (c : M World A) : Prop :=
  forall s, sampleTime_ (this (c s).2) = sampleTime_ (this s).

(** The calls of [initialize] that follow the creation of the instance. *)
Definition configurationPlan (unit : AudioUnit)
    (inputASBD outputASBD : AudioStreamBasicDescription) : list Call :=
  drop 2 (initializePlan nullptr unit inputASBD outputASBD).

(** The time stamp [mix] hands to the render call, and that call itself:
    what the platform answers to [mix(inNumberFrames, inputABL, outputABL)]
    in the machine [s]. *)
Definition mixTimeStamp (me : SystemAudioMixer) : AudioTimeStamp :=
  {| mSampleTime := sampleTime_ me;
     mHostTime := 0;
     mRateScalar := f64_zero;
     mWordClockTime := 0;
     mFlags := kAudioTimeStampSampleTimeValid |}.

Definition mixRender {World} (AT : AudioToolbox World) (inNumberFrames : UInt32)
    (inputABL outputABL : ptr) (s : Machine World) : OSStatus * World * Memory :=
  AudioUnitRender AT (mixerUnit_ (this s)) nullptr (mixTimeStamp (this s)) 0 inNumberFrames
    outputABL (renderCallback (set_renderCallbackInputABL_ inputABL (this s)))
    (world s) (memory s).

(** ** Buffer shapes *)

(** The array of a list holds at least the advertised number of buffers,
    and the count is a [UInt32]. *)
Definition wellFormedABL (abl : AudioBufferList) : Prop :=
  is_UInt32 (mNumberBuffers abl) /\ mNumberBuffers abl <= Z.of_nat (length (mBuffers abl)).

Definition sameShape (a b : AudioBuffer) : Prop :=
  mNumberChannels a = mNumberChannels b /\ mDataByteSize a = mDataByteSize b.

#[global] Instance sameShape_dec a b : Decision (sameShape a b).
Proof. unfold sameShape. apply _. Defined.

(** What the supply routine writes: [outBuffer.mData = inBuffer.mData]. *)
Definition aliasBuffer (inBuffer outBuffer : AudioBuffer) : AudioBuffer :=
  {| mNumberChannels := mNumberChannels outBuffer;
     mDataByteSize := mDataByteSize outBuffer;
     mData := mData inBuffer |}.

(** The output list once its first [k] buffers point at the data of the
    corresponding input buffers; the buffers from [k] on are as they were. *)
Definition aliased (k : nat) (inABL outABL : AudioBufferList) : AudioBufferList :=
  {| mNumberBuffers := mNumberBuffers outABL;
     mBuffers :=
       imap (fun j outBuffer =>
               match mBuffers inABL !! j with
               | Some inBuffer =>
                   if decide (j < k)%nat then aliasBuffer inBuffer outBuffer else outBuffer
               | None => outBuffer
               end) (mBuffers outABL) |}.

(** The memory at the start of turn [i] of the supply routine's loop: the
    input list is as it was and the first [i] output buffers are aliased. *)
Definition atTurn (pThis : SystemAudioMixer) (ioData : ptr) (inABL outABL : AudioBufferList)
    (i : nat) (mem : Memory) : Prop :=
  bufferLists mem !! renderCallbackInputABL_ pThis = Some inABL /\
  bufferLists mem !! ioData = Some (aliased i inABL outABL).

(** Every pair of corresponding buffers below index [k] has the same
    channel count and byte size. *)
Definition shapesMatchBelow (k : nat) (inABL outABL : AudioBufferList) : Prop :=
  forall j a b, (j < k)%nat ->
    mBuffers inABL !! j = Some a -> mBuffers outABL !! j = Some b -> sameShape a b.

Arguments aliased : simpl never.
Arguments setData : simpl never.
Arguments storeBufferList : simpl never.

(** ** A scripted test double for the platform

    It answers discovery with [dbl_component], hands out [dbl_unit], and
    returns the statuses of [dbl_script] to the calls that follow, one each;
    when the script is used up every call succeeds.  A successful render
    forwards the pull to the input procedure when [dbl_pulls] is set. *)

Record Double := {
  dbl_component : AudioComponent;
  dbl_unit : AudioUnit;
  dbl_script : list OSStatus;
  dbl_pulls : bool
}.

Definition nextStatus (d : Double) : OSStatus * Double :=
  match dbl_script d with
  | [] => (noErr, d)
  | status :: rest =>
      (status, {| dbl_component := dbl_component d; dbl_unit := dbl_unit d;
                  dbl_script := rest; dbl_pulls := dbl_pulls d |})
  end.

Definition testDouble : AudioToolbox Double :=
  {| AudioComponentFindNext := fun _ _ d => (dbl_component d, d);
     AudioComponentInstanceNew := fun _ old d =>
       let '(status, d') := nextStatus d in
       ((status, if decide (status = noErr) then dbl_unit d else old), d');
     AudioUnitSetProperty := fun _ _ _ _ _ d => nextStatus d;
     AudioUnitSetParameter := fun _ _ _ _ _ _ d => nextStatus d;
     AudioUnitInitialize := fun _ d => nextStatus d;
     AudioUnitUninitialize := fun _ d => nextStatus d;
     AudioComponentInstanceDispose := fun _ d => nextStatus d;
     AudioUnitRender := fun _ flags ts bus frames ioData proc d mem =>
       let '(status, d') := nextStatus d in
       if decide (status = noErr) then
         if dbl_pulls d then
           match proc flags ts bus frames ioData mem with
           | Some (status', mem') => (status', d', mem')
           | None => (kAudio_ParamError, d', mem)
           end
         else (noErr, d', mem)
       else (status, d', mem) |}.

(** ** Sample data for the scenarios *)

Definition monoBuffer (bytes : UInt32) (data : ptr) : AudioBuffer :=
  {| mNumberChannels := 1; mDataByteSize := bytes; mData := data |}.

(** Two input buffers with sample data, and output lists with no data yet:
    one of the same shape, one with a single buffer, one whose second buffer
    has another byte size. *)
Definition inputList : AudioBufferList :=
  {| mNumberBuffers := 2; mBuffers := [monoBuffer 2048 0x5000; monoBuffer 2048 0x5800] |}.
Definition outputList : AudioBufferList :=
  {| mNumberBuffers := 2; mBuffers := [monoBuffer 2048 nullptr; monoBuffer 2048 nullptr] |}.
Definition shortOutputList : AudioBufferList :=
  {| mNumberBuffers := 1; mBuffers := [monoBuffer 2048 nullptr] |}.
Definition oddOutputList : AudioBufferList :=
  {| mNumberBuffers := 2; mBuffers := [monoBuffer 2048 nullptr; monoBuffer 1024 nullptr] |}.

Definition sampleMemory : Memory :=
  {| bufferLists := {[ 0x1000 := inputList; 0x2000 := outputList;
                       0x3000 := shortOutputList; 0x4000 := oddOutputList ]};
     sampleBytes := {[ 0x5000 := 17; 0x5800 := 42 ]} |}.

Definition rawMixer : SystemAudioMixer :=
  {| mixerUnit_ := 0xdead; mixerInputChannels_ := 0xbeef; mixerOutputChannels_ := 0xcafe;
     sampleTime_ := S754_nan; renderCallbackInputABL_ := 0xf00d |}.

Definition zeroTimeStamp : AudioTimeStamp :=
  {| mSampleTime := f64_zero; mHostTime := 0; mRateScalar := f64_zero;
     mWordClockTime := 0; mFlags := kAudioTimeStampSampleTimeValid |}.

(** Linear PCM, 32-bit float, 48 kHz, with the given number of channels. *)
Definition pcmFormat (channels : UInt32) : AudioStreamBasicDescription :=
  {| mSampleRate := f64_of_Z 48000;
     mFormatID := 0x6c70636d;
     mFormatFlags := 41;
     mBytesPerPacket := 4;
     mFramesPerPacket := 1;
     mBytesPerFrame := 4;
     mChannelsPerFrame := channels;
     mBitsPerChannel := 32 |}.

(** A double on which everything succeeds, and machines built around
    doubles: a freshly constructed mixer, the sample memory, an empty log. *)
Definition obligingDouble : Double :=
  {| dbl_component := 0xC0; dbl_unit := 0xA0; dbl_script := []; dbl_pulls := true |}.

Definition scriptedDouble (component : AudioComponent) (script : list OSStatus) : Double :=
  {| dbl_component := component; dbl_unit := 0xA0; dbl_script := script; dbl_pulls := true |}.

Definition freshMachine {World} (w : World) : Machine World :=
  {| this := SystemAudioMixer_new rawMixer; world := w; memory := sampleMemory; calls := [] |}.

(** The sample memory once the output list at 0x2000 has been aliased to
    the input list at 0x1000. *)
Definition aliasedMemory : Memory :=
  storeBufferList 0x2000
    {| mNumberBuffers := 2; mBuffers := [monoBuffer 2048 0x5000; monoBuffer 2048 0x5800] |}
    sampleMemory.

(** A frame count of 2^31, and the number of calls with that count after
    which the total is 2^53. *)
Definition halfRangeFrames : UInt32 := 0x80000000.
Definition exactCalls : nat := Z.to_nat (2 ^ 22).

(** The machines that rendering from 0x1000 into 0x2000 on the obliging
    double leads to. *)
Definition obliging (s : Machine Double) : Prop :=
  world s = obligingDouble /\ (memory s = sampleMemory \/ memory s = aliasedMemory).

(** ** AutoCFType (SystemAudioUtilities.hpp) *)

Module AutoCFType.
Definition CFTypeRef := ptr.

Record t := { type_ : CFTypeRef }.

(** The references handed to [CFRelease] so far, in order. *)
Definition Released := list CFTypeRef.

Definition CFRelease (cf : CFTypeRef) (log : Released) : Released := log ++ [cf].

(** [CFTypeRef type_ = nullptr;] *)
Definition new : t := {| type_ := nullptr |}.

(** [~AutoCFType()] *)
Definition destroy (w : t) (log : Released) : Released :=
  if decide (type_ w <> nullptr) then CFRelease (type_ w) log else log.

(** [void reset(T type)] *)
Definition reset (type : CFTypeRef) (w : t) (log : Released) : t * Released :=
  let log' := if decide (type_ w <> nullptr) then CFRelease (type_ w) log else log in
  ({| type_ := type |}, log').

(** [T release()] *)
Definition release (w : t) (log : Released) : CFTypeRef * t * Released :=
  let result := type_ w in
  (result, {| type_ := nullptr |}, log).

(** [T get()] *)
Definition get (w : t) (log : Released) : CFTypeRef * t * Released :=
  (type_ w, w, log).
End AutoCFType.

(** ** Frames, teardown calls and forwarding platforms *)

(** The computation [c] leaves the observation [g] of the mixer object and
    of the memory as it found it. *)
Definition keeps {World A X} (g : SystemAudioMixer -> Memory -> X) (c : M World A) : Prop :=
  forall s, g (this (c s).2) (memory (c s).2) = g (this s) (memory s).

(** Calls that deactivate or dispose of a unit. *)
Definition isTeardown (call : Call) : Prop :=
  match call with
  | CallUninitialize _ | CallInstanceDispose _ => True
  | _ => False
  end.

(** In the world [w], a render call that pulls through its input procedure
    returns what the procedure returned and leaves the memory the procedure
    left. *)
Definition forwardsPull {World} (AT : AudioToolbox World) (w : World) : Prop :=
  forall unit flags ts bus frames ioData (proc : InputProc) mem status mem',
    proc flags ts bus frames ioData mem = Some (status, mem') ->
    let r := AudioUnitRender AT unit flags ts bus frames ioData proc w mem in
    r.1.1 = status /\ r.2 = mem'.

(** Which method an operation calls. *)
Definition isInitializeOp (op : Op) : Prop :=
  match op with OpInitialize _ _ => True | _ => False end.

Definition isMixOp (op : Op) : Prop :=
  match op with OpMix _ _ _ => True | _ => False end.

(** ** Lifetimes of AutoCFType wrappers *)

Inductive AutoCFOp :=
  | AutoReset (type : AutoCFType.CFTypeRef)
  | AutoRelease
  | AutoGet.

(** A wrapper's life: the operations in order.  The result is the wrapper,
    the handles [release] gave out, and what has been handed to [CFRelease]. *)
Fixpoint runAutoCF (ops : list AutoCFOp) (w : AutoCFType.t)
    (given : list AutoCFType.CFTypeRef) (log : AutoCFType.Released)
  : AutoCFType.t * list AutoCFType.CFTypeRef * AutoCFType.Released :=
  match ops with
  | [] => (w, given, log)
  | AutoReset type :: ops' =>
      let '(w', log') := AutoCFType.reset type w log in runAutoCF ops' w' given log'
  | AutoRelease :: ops' =>
      let '(h, w', log') := AutoCFType.release w log in runAutoCF ops' w' (given ++ [h]) log'
  | AutoGet :: ops' =>
      let '(_, w', log') := AutoCFType.get w log in runAutoCF ops' w' given log'
  end.

(** The handles an operation sequence hands to [reset]. *)
Fixpoint handlesReset (ops : list AutoCFOp) : list AutoCFType.CFTypeRef :=
  match ops with
  | [] => []
  | AutoReset type :: ops' => type :: handlesReset ops'
  | _ :: ops' => handlesReset ops'
  end.

Definition nonNull (hs : list AutoCFType.CFTypeRef) : list AutoCFType.CFTypeRef :=
  filter (fun h => h <> nullptr) hs.

(** * The model on concrete inputs *)

Section Scenarios.

(** 2-channel input, 4-channel output; crosspoints (0,0) and (1,3) set;
    512 frames mixed: every call succeeds, the output list is aliased to
    the input list and the clock reads 512. *)
Example scenario_two_in_four_out :
  let r := runOps testDouble
             [OpInitialize (pcmFormat 2) (pcmFormat 4);
              OpSetCrossoverVolume 0 0 (S754_finite false 8388608 (-24));
              OpSetCrossoverVolume 1 3 f32_one;
              OpMix 512 0x1000 0x2000]
             (freshMachine obligingDouble) in
  r.1 = [noErr; noErr; noErr; noErr] /\
  memory r.2 = aliasedMemory /\
  sampleTime_ (this r.2) = f64_of_Z 512 /\
  length (calls r.2) = 19%nat /\
  recordedVolume (calls r.2) kAudioUnitScope_Global (crosspointElement 1 3) = Some f32_one.
Proof. vm_compute. repeat split. Qed.

(** A stream format that the unit refuses: [initialize] stops there. *)
Example scenario_format_refused :
  let r := initialize testDouble (pcmFormat 2) (pcmFormat 4)
             (freshMachine (scriptedDouble 0xC0 [noErr; noErr; noErr; -10868])) in
  r.1 = -10868 /\
  fst <$> calls r.2 =
    take 5 (initializePlan 0xC0 0xA0 (pcmFormat 2) (pcmFormat 4)).
Proof. vm_compute. repeat split. Qed.

(** Mismatched buffer counts: a parameter error, and the clock stays. *)
Example scenario_count_mismatch :
  let r := mix testDouble 512 0x1000 0x3000 (freshMachine obligingDouble) in
  r.1 = kAudio_ParamError /\ memory r.2 = sampleMemory /\
  sampleTime_ (this r.2) = f64_of_Z 0.
Proof. vm_compute. repeat split. Qed.

(** Conversions and sums of small whole numbers. *)
Example f64_small_numbers :
  f64_of_Z 1 = S754_finite false 4503599627370496 (-52) /\
  f64_add (f64_of_Z 512) (f64_of_Z 256) = f64_of_Z 768 /\
  f64_to_Z (f64_of_Z 768) = Some 768 /\
  f64_add (f64_of_Z (2 ^ 53)) (f64_of_Z 1) = f64_of_Z (2 ^ 53) /\
  f32_one = S754_finite false 8388608 (-23).
Proof. vm_compute. repeat split. Qed.
End Scenarios.

(** * Float64 arithmetic on whole numbers

    [SpecFloat] defines the operations; the lemmas below show that the
    conversion of a whole number below 2^53 and the sum of two such numbers
    are exact. *)

Section Float64.

Lemma digits2_size p : digits2_pos p = Pos.size p.
Proof. induction p; simpl; congruence. Qed.

Lemma iter_pos_iter {A} (f : A -> A) n x : iter_pos f n x = Pos.iter f x n.
Proof.
  revert x. induction n; intros x; simpl.
  - rewrite !IHn. rewrite <- !Pos.iter_swap. reflexivity.
  - rewrite !IHn. reflexivity.
  - reflexivity.
Qed.

Lemma Zpos_iter_xO m k : Zpos (Pos.iter xO m k) = Zpos m * 2 ^ Zpos k.
Proof.
  induction k using Pos.peano_ind.
  - simpl. lia.
  - rewrite Pos.iter_succ, Pos2Z.inj_succ, Z.pow_succ_r by lia.
    rewrite Pos2Z.inj_xO, IHk. lia.
Qed.

Lemma size_iter_xO m k : Pos.size (Pos.iter xO m k) = (Pos.size m + k)%positive.
Proof.
  induction k using Pos.peano_ind.
  - simpl. lia.
  - rewrite Pos.iter_succ. simpl. rewrite IHk. lia.
Qed.

Lemma shr_iter_xO M k :
  iter_pos shr_1 k {| shr_m := Zpos (Pos.iter xO M k); shr_r := false; shr_s := false |}
  = {| shr_m := Zpos M; shr_r := false; shr_s := false |}.
Proof.
  rewrite iter_pos_iter.
  induction k using Pos.peano_ind.
  - reflexivity.
  - rewrite Pos.iter_succ_r. rewrite Pos.iter_succ. simpl. exact IHk.
Qed.

Lemma shr_fexp_canonical M E :
  Zpos (Pos.size M) = 53 -> -1074 <= E ->
  shr_fexp 53 1024 (Zpos M) E loc_Exact
  = ({| shr_m := Zpos M; shr_r := false; shr_s := false |}, E).
Proof.
  intros HM HE. unfold shr_fexp, Zdigits2. rewrite digits2_size, HM.
  replace (fexp 53 1024 (53 + E) - E) with 0 by (unfold fexp, emin; lia).
  reflexivity.
Qed.

Lemma round_aux_canonical M E :
  Zpos (Pos.size M) = 53 -> -1074 <= E <= 971 ->
  binary_round_aux 53 1024 false (Zpos M) E loc_Exact = S754_finite false M E.
Proof.
  intros HM HE. unfold binary_round_aux.
  rewrite shr_fexp_canonical by lia.
  cbn [shr_m loc_of_shr_record round_nearest_even].
  rewrite shr_fexp_canonical by lia.
  cbn [shr_m]. replace (1024 - 53) with 971 by reflexivity.
  destruct (Z.leb_spec E 971); [reflexivity | lia].
Qed.

(** [binary_normalize] of a value [m * 2^e] that fits the 53-bit significand:
    the result is the canonical pair (M, E) with the same value. *)
Lemma normalize_up m e :
  let d := Zpos (Pos.size m) in
  d <= 53 -> -1074 <= d + e - 53 <= 971 ->
  binary_normalize 53 1024 (Zpos m) e false
  = S754_finite false (Z.to_pos (Zpos m * 2 ^ (53 - d))) (d + e - 53).
Proof.
  intros d Hd HE. unfold binary_normalize, binary_round.
  rewrite digits2_size. fold d.
  assert (Hf : fexp 53 1024 (d + e) = d + e - 53).
  { unfold fexp, emin. lia. }
  rewrite Hf. unfold shl_align.
  destruct (d + e - 53 - e) as [|q|q] eqn:Hq; try lia.
  - assert (d = 53) by lia.
    replace (53 - d) with 0 by lia. rewrite Z.mul_1_r.
    replace (d + e - 53) with e by lia. cbn [Z.to_pos].
    apply round_aux_canonical; [assumption | lia].
  - assert (Hk : 53 - d = Zpos q) by lia.
    rewrite Hk. rewrite <- Zpos_iter_xO. cbn [Z.to_pos].
    apply round_aux_canonical; [| lia].
    rewrite size_iter_xO. fold d in Hk. lia.
Qed.

Lemma normalize_down M k e :
  Zpos (Pos.size M) = 53 -> -1074 <= e + Zpos k <= 971 ->
  binary_normalize 53 1024 (Zpos (Pos.iter xO M k)) e false
  = S754_finite false M (e + Zpos k).
Proof.
  intros HM HE. unfold binary_normalize, binary_round.
  rewrite digits2_size, size_iter_xO.
  assert (Hf : fexp 53 1024 (Zpos (Pos.size M + k) + e) = e + Zpos k).
  { unfold fexp, emin. lia. }
  rewrite Hf. unfold shl_align.
  replace (e + Zpos k - e) with (Zpos k) by lia.
  unfold binary_round_aux.
  assert (Hs : shr_fexp 53 1024 (Zpos (Pos.iter xO M k)) e loc_Exact
               = ({| shr_m := Zpos M; shr_r := false; shr_s := false |}, e + Zpos k)).
  { unfold shr_fexp, Zdigits2. rewrite digits2_size, size_iter_xO, Hf.
    replace (e + Zpos k - e) with (Zpos k) by lia.
    cbn [shr_record_of_loc shr]. rewrite shr_iter_xO. reflexivity. }
  rewrite Hs. cbn [shr_m loc_of_shr_record round_nearest_even].
  rewrite shr_fexp_canonical by lia.
  cbn [shr_m]. replace (1024 - 53) with 971 by reflexivity.
  destruct (Z.leb_spec (e + Zpos k) 971); [reflexivity | lia].
Qed.

Lemma Zpos_size_bounds p : 2 ^ (Zpos (Pos.size p) - 1) <= Zpos p < 2 ^ Zpos (Pos.size p).
Proof.
  split.
  - pose proof (Pos.size_le p) as H.
    apply Pos2Z.pos_le_pos in H. rewrite Pos2Z.inj_pow in H.
    replace (Zpos (Pos.size p)) with (Z.succ (Zpos (Pos.size p) - 1)) in H by lia.
    rewrite Z.pow_succ_r in H by lia. lia.
  - pose proof (Pos.size_gt p) as H.
    apply Pos2Z.pos_lt_pos in H. rewrite Pos2Z.inj_pow in H. exact H.
Qed.

Lemma Zpos_size_unique p d : 2 ^ (d - 1) <= Zpos p < 2 ^ d -> Zpos (Pos.size p) = d.
Proof.
  intros [Hlo Hhi]. pose proof (Zpos_size_bounds p) as [Hlo' Hhi'].
  assert (0 < d).
  { destruct (Z.lt_ge_cases 0 d); [assumption|].
    destruct (Z.eq_dec d 0) as [->|]; [simpl in Hhi; lia|].
    rewrite Z.pow_neg_r in Hhi by lia. lia. }
  destruct (Z.lt_trichotomy (Zpos (Pos.size p)) d) as [Hlt | [Heq | Hgt]]; [| assumption |].
  - assert (2 ^ Zpos (Pos.size p) <= 2 ^ (d - 1)) by (apply Z.pow_le_mono_r; lia). lia.
  - assert (2 ^ d <= 2 ^ (Zpos (Pos.size p) - 1)) by (apply Z.pow_le_mono_r; lia). lia.
Qed.

Lemma Zpos_size_shift p k q :
  0 <= k -> Zpos q = Zpos p * 2 ^ k -> Zpos (Pos.size q) = Zpos (Pos.size p) + k.
Proof.
  intros Hk Hq. apply Zpos_size_unique. rewrite Hq.
  pose proof (Zpos_size_bounds p) as [Hlo Hhi].
  replace (Zpos (Pos.size p) + k - 1) with (Zpos (Pos.size p) - 1 + k) by lia.
  rewrite !Z.pow_add_r by lia.
  assert (0 < 2 ^ k) by (apply Z.pow_pos_nonneg; lia). nia.
Qed.

(** The value [m * 2^e] equals [M * 2^E] with [M] a full 53-bit significand:
    normalisation returns exactly (M, E). *)
Lemma normalize_exact m e M E :
  Zpos (Pos.size M) = 53 -> -1074 <= E <= 971 ->
  (E <= e /\ Zpos M = Zpos m * 2 ^ (e - E)) \/ (e < E /\ Zpos m = Zpos M * 2 ^ (E - e)) ->
  binary_normalize 53 1024 (Zpos m) e false = S754_finite false M E.
Proof.
  intros HM HE [[Hle Hv] | [Hlt Hv]].
  - pose proof (Zpos_size_shift m (e - E) M ltac:(lia) Hv) as Hs.
    rewrite normalize_up by lia.
    f_equal; [| lia].
    replace (53 - Zpos (Pos.size m)) with (e - E) by lia.
    rewrite <- Hv. reflexivity.
  - destruct (E - e) as [|k|k] eqn:Hk; try lia.
    rewrite <- Zpos_iter_xO in Hv. injection Hv as ->.
    replace E with (e + Zpos k) by lia.
    apply normalize_down; [assumption | lia].
Qed.

Lemma int_significand c :
  1 <= c <= 2 ^ 53 ->
  exists M E, Zpos (Pos.size M) = 53 /\ -52 <= E <= 1 /\
    ((E <= 0 /\ Zpos M = c * 2 ^ (- E)) \/ (0 < E /\ c = Zpos M * 2 ^ E)).
Proof.
  intros Hc. destruct (Z.eq_dec c (2 ^ 53)) as [-> | Hne].
  - exists (Z.to_pos (2 ^ 52)), 1.
    split; [reflexivity|]. split; [lia|]. right. split; [lia | reflexivity].
  - destruct c as [|p|p]; try lia.
    pose proof (Zpos_size_bounds p) as [Hlo Hhi].
    set (d := Zpos (Pos.size p)) in *.
    assert (d <= 53).
    { destruct (Z.le_gt_cases d 53); [assumption|].
      assert (2 ^ 53 <= 2 ^ (d - 1)) by (apply Z.pow_le_mono_r; lia). lia. }
    assert (0 < 2 ^ (53 - d)) by (apply Z.pow_pos_nonneg; lia).
    exists (Z.to_pos (Zpos p * 2 ^ (53 - d))), (d - 53).
    assert (Hv : Zpos (Z.to_pos (Zpos p * 2 ^ (53 - d))) = Zpos p * 2 ^ (53 - d)).
    { rewrite Z2Pos.id; lia. }
    repeat split; try lia.
    + rewrite (Zpos_size_shift p (53 - d) _ ltac:(lia) Hv). fold d. lia.
    + left. split; [lia|]. rewrite Hv. f_equal. f_equal. lia.
Qed.

Lemma normalize_int c t :
  1 <= c <= 2 ^ 53 -> 0 <= t ->
  binary_normalize 53 1024 (c * 2 ^ t) (- t) false = f64_of_Z c.
Proof.
  intros Hc Ht. destruct (int_significand c Hc) as (M & E & HM & HE & Hv).
  assert (Hp : 0 < 2 ^ t) by (apply Z.pow_pos_nonneg; lia).
  transitivity (S754_finite false M E).
  - destruct (c * 2 ^ t) as [|m|m] eqn:Hm; try lia.
    apply normalize_exact; [assumption | lia |].
    destruct (Z.le_gt_cases E (- t)) as [Hle | Hgt].
    + left. split; [assumption|]. destruct Hv as [[_ Hv] | [? _]]; [| lia].
      rewrite Hv, <- Hm. replace (- E) with (t + (- t - E)) by lia.
      rewrite Z.pow_add_r by lia. lia.
    + right. split; [lia|]. rewrite <- Hm. destruct Hv as [[? Hv] | [? Hv]].
      * rewrite Hv. replace t with (- E + (E - - t)) at 1 by lia.
        rewrite Z.pow_add_r by lia. lia.
      * rewrite Hv at 1. replace (E - - t) with (E + t) by lia.
        rewrite Z.pow_add_r by lia. lia.
  - symmetry. unfold f64_of_Z. destruct c as [|m|m]; try lia.
    apply normalize_exact; [assumption | lia |].
    destruct Hv as [[? Hv] | [? Hv]].
    + left. split; [assumption|]. rewrite Hv. f_equal.
    + right. split; [assumption|]. rewrite Hv at 1. f_equal. f_equal. lia.
Qed.

Lemma shl_align_value mx ex ez :
  ez <= ex -> Zpos (fst (shl_align mx ex ez)) = Zpos mx * 2 ^ (ex - ez).
Proof.
  intros H. unfold shl_align. destruct (ez - ex) as [|k|k] eqn:Hk; try lia; cbn [fst].
  - replace (ex - ez) with 0 by lia. lia.
  - rewrite Zpos_iter_xO. f_equal. f_equal. lia.
Qed.

Lemma f64_of_Z_finite c :
  1 <= c < 2 ^ 53 ->
  exists M E, f64_of_Z c = S754_finite false M E /\ -52 <= E <= 0 /\
    forall t, - t <= E -> Zpos M * 2 ^ (E + t) = c * 2 ^ t.
Proof.
  intros Hc. destruct (int_significand c ltac:(lia)) as (M & E & HM & HE & Hv).
  assert (HE0 : E <= 0).
  { destruct Hv as [[? _] | [Hpos Hv]]; [assumption|].
    assert (E = 1) as -> by lia.
    pose proof (Zpos_size_bounds M) as [Hlo _]. rewrite HM in Hlo.
    change (2 ^ (53 - 1)) with 4503599627370496 in Hlo.
    change (2 ^ 53) with 9007199254740992 in Hc. lia. }
  destruct Hv as [[_ Hv] | [? _]]; [| lia].
  exists M, E. split; [| split; [lia|]].
  - unfold f64_of_Z. destruct c as [|m|m]; try lia.
    apply normalize_exact; [assumption | lia |].
    left. split; [assumption|]. rewrite Hv. f_equal.
  - intros t Ht. rewrite Hv, <- Z.mul_assoc, <- Z.pow_add_r by lia.
    f_equal. f_equal. lia.
Qed.

(** Float64 addition of two whole numbers is exact up to 2^53. *)
Lemma f64_add_exact a b :
  0 <= a -> 0 <= b -> a + b <= 2 ^ 53 ->
  f64_add (f64_of_Z a) (f64_of_Z b) = f64_of_Z (a + b).
Proof.
  intros Ha Hb Hab.
  destruct (Z.eq_dec a 0) as [-> | Ha0].
  { rewrite Z.add_0_l.
    destruct (Z.eq_dec b 0) as [-> | Hb0]; [reflexivity|].
    destruct (Z.eq_dec b (2 ^ 53)) as [-> | Hb1]; [reflexivity|].
    destruct (f64_of_Z_finite b ltac:(lia)) as (M & E & -> & _). reflexivity. }
  destruct (Z.eq_dec b 0) as [-> | Hb0].
  { rewrite Z.add_0_r.
    destruct (Z.eq_dec a (2 ^ 53)) as [-> | Ha1]; [reflexivity|].
    destruct (f64_of_Z_finite a ltac:(lia)) as (M & E & -> & _). reflexivity. }
  destruct (f64_of_Z_finite a ltac:(lia)) as (Ma & Ea & -> & HEa & Hva).
  destruct (f64_of_Z_finite b ltac:(lia)) as (Mb & Eb & -> & HEb & Hvb).
  unfold f64_add, SFadd. cbn [cond_Zopp].
  rewrite !shl_align_value by lia.
  set (t := - Z.min Ea Eb).
  replace (Z.min Ea Eb) with (- t) by lia.
  replace (Ea - - t) with (Ea + t) by lia.
  replace (Eb - - t) with (Eb + t) by lia.
  rewrite Hva, Hvb by lia.
  rewrite <- Z.mul_add_distr_r.
  apply normalize_int; lia.
Qed.

(** Every whole number up to 2^53 survives the conversion. *)
Lemma f64_to_Z_of_Z z : 0 <= z <= 2 ^ 53 -> f64_to_Z (f64_of_Z z) = Some z.
Proof.
  intros Hz.
  destruct (Z.eq_dec z 0) as [-> | Hz0]; [reflexivity|].
  destruct (Z.eq_dec z (2 ^ 53)) as [-> | Hz1]; [reflexivity|].
  destruct (f64_of_Z_finite z ltac:(lia)) as (M & E & -> & HE & Hv).
  unfold f64_to_Z, cond_Zopp.
  pose proof (Hv (- E) ltac:(lia)) as HM.
  replace (E + - E) with 0 in HM by lia. rewrite Z.pow_0_r, Z.mul_1_r in HM.
  assert (0 < 2 ^ (- E)) by (apply Z.pow_pos_nonneg; lia).
  destruct (Z.leb_spec 0 E).
  - replace E with 0 in * by lia. simpl in HM. f_equal. lia.
  - rewrite HM, Z.mod_mul, Z.eqb_refl, Z.div_mul by lia. reflexivity.
Qed.

(** ** Rounding never goes below a representable lower bound *)

Lemma shr_1_m mrs : 0 <= shr_m mrs -> shr_m (shr_1 mrs) = shr_m mrs / 2.
Proof.
  destruct mrs as [m r st]. cbn [shr_m]. intros Hm.
  destruct m as [|[p|p|]|p]; cbn [shr_1 shr_m]; try lia; try reflexivity.
  - rewrite Pos2Z.inj_xI. apply Z.div_unique with (r := 1); lia.
  - rewrite Pos2Z.inj_xO. apply Z.div_unique with (r := 0); lia.
Qed.

Lemma shr_iter_m k : forall mrs,
  0 <= shr_m mrs -> shr_m (iter_pos shr_1 k mrs) = shr_m mrs / 2 ^ Zpos k.
Proof.
  intros mrs. rewrite iter_pos_iter.
  induction k using Pos.peano_ind; intros Hm.
  - cbn [Pos.iter]. rewrite shr_1_m by done. reflexivity.
  - rewrite Pos.iter_succ, shr_1_m.
    + rewrite IHk by done. rewrite Pos2Z.inj_succ, Z.pow_succ_r by lia.
      rewrite Z.div_div by (try apply Z.pow_pos_nonneg; lia).
      f_equal. lia.
    + rewrite IHk by done. apply Z.div_pos; [done|]. apply Z.pow_pos_nonneg; lia.
Qed.

Lemma round_nearest_even_range m l :
  round_nearest_even m l = m \/ round_nearest_even m l = m + 1.
Proof.
  destruct l as [|[| |]]; cbn; auto. destruct (Z.even m); auto.
Qed.

Lemma shr_fexp_carry E :
  -1074 <= E ->
  shr_fexp 53 1024 (2 ^ 53) E loc_Exact
  = ({| shr_m := 2 ^ 52; shr_r := false; shr_s := false |}, E + 1).
Proof.
  intros HE. unfold shr_fexp. change (Zdigits2 (2 ^ 53)) with 54.
  replace (fexp 53 1024 (54 + E) - E) with 1 by (unfold fexp, emin; lia).
  reflexivity.
Qed.

(** Normalising a value that is at least [mx * 2^ex], with [mx] a full
    significand, gives infinity or a float that is not below it. *)
Lemma normalize_lower_bound S ez mx ex :
  Zpos (Pos.size mx) = 53 -> -1074 <= ez <= ex -> ex <= 971 ->
  Zpos mx * 2 ^ (ex - ez) <= Zpos S ->
  binary_normalize 53 1024 (Zpos S) ez false = S754_infinity false \/
  exists M E,
    binary_normalize 53 1024 (Zpos S) ez false = S754_finite false M E /\
    Zpos (Pos.size M) = 53 /\ ex <= E <= 971 /\ (E = ex -> Zpos mx <= Zpos M).
Proof.
  intros Hmx Hez Hex HS.
  pose proof (Zpos_size_bounds mx) as [Hmxlo _]. rewrite Hmx in Hmxlo.
  change (2 ^ (53 - 1)) with (2 ^ 52) in Hmxlo.
  pose proof (Zpos_size_bounds S) as [HSlo HShi].
  set (d := Zpos (Pos.size S)) in *.
  assert (Hp : 0 < 2 ^ (ex - ez)) by (apply Z.pow_pos_nonneg; lia).
  assert (Hd : 53 + (ex - ez) <= d).
  { assert (2 ^ (52 + (ex - ez)) < 2 ^ d) as Hlt.
    { rewrite Z.pow_add_r by lia. nia. }
    apply Z.pow_lt_mono_r_iff in Hlt; lia. }
  set (k := d - 53). set (E := ez + k).
  unfold binary_normalize, binary_round. rewrite digits2_size. fold d.
  assert (Hf : fexp 53 1024 (d + ez) = E) by (unfold fexp, emin; lia).
  rewrite Hf.
  assert (Hal : shl_align S ez E = (S, ez)).
  { unfold shl_align. destruct (E - ez) eqn:?; try reflexivity. lia. }
  rewrite Hal. unfold binary_round_aux.
  assert (Hk2 : 0 < 2 ^ k) by (apply Z.pow_pos_nonneg; lia).
  assert (HSk : 2 ^ 52 * 2 ^ k <= Zpos S < 2 ^ 53 * 2 ^ k).
  { rewrite <- !Z.pow_add_r by lia.
    replace (52 + k) with (d - 1) by lia. replace (53 + k) with d by lia. done. }
  (* the first shift *)
  assert (Hs1 : exists mrs,
             shr_fexp 53 1024 (Zpos S) ez loc_Exact = (mrs, E) /\
             shr_m mrs = Zpos S / 2 ^ k).
  { unfold shr_fexp, Zdigits2. rewrite digits2_size. fold d. rewrite Hf.
    replace (E - ez) with k by lia.
    destruct k as [|kp|kp] eqn:Hk; try lia.
    - eexists. split; [unfold shr; f_equal; lia|]. cbn [shr_record_of_loc shr_m].
      by rewrite Z.div_1_r.
    - eexists. split; [reflexivity|]. by rewrite shr_iter_m. }
  destruct Hs1 as (mrs & -> & Hm0).
  assert (HM0 : 2 ^ 52 <= shr_m mrs < 2 ^ 53).
  { rewrite Hm0. split.
    - apply Z.div_le_lower_bound; lia.
    - apply Z.div_lt_upper_bound; lia. }
  assert (HM0x : E = ex -> Zpos mx <= shr_m mrs).
  { intros HE. rewrite Hm0. apply Z.div_le_lower_bound; [lia|].
    replace k with (ex - ez) by lia. lia. }
  destruct (round_nearest_even_range (shr_m mrs) (loc_of_shr_record mrs)) as [Hr | Hr];
    rewrite Hr; clear Hr.
  - (* rounded down *)
    destruct (shr_m mrs) as [|M|M] eqn:HM; try lia.
    assert (HsM : Zpos (Pos.size M) = 53) by (apply Zpos_size_unique; done).
    rewrite shr_fexp_canonical by lia. cbn [shr_m].
    change (1024 - 53) with 971.
    destruct (Z.leb_spec E 971); [|by left].
    right. exists M, E. repeat split; try done; lia.
  - destruct (Z.eq_dec (shr_m mrs + 1) (2 ^ 53)) as [Hc | Hc].
    + (* carry into the next binade *)
      rewrite Hc, shr_fexp_carry by lia. cbn [shr_m].
      change (1024 - 53) with 971. change (2 ^ 52) with (Zpos (Z.to_pos (2 ^ 52))).
      cbv iota.
      destruct (Z.leb_spec (E + 1) 971); [|by left].
      right. exists (Z.to_pos (2 ^ 52)), (E + 1).
      repeat split; try done; lia.
    + destruct (shr_m mrs + 1) as [|M|M] eqn:HM; try lia.
      assert (HsM : Zpos (Pos.size M) = 53).
      { apply Zpos_size_unique. change (2 ^ (53 - 1)) with (2 ^ 52). lia. }
      rewrite shr_fexp_canonical by lia. cbn [shr_m].
      change (1024 - 53) with 971.
      destruct (Z.leb_spec E 971); [|by left].
      right. exists M, E. repeat split; try done; lia.
Qed.

Lemma f64_of_Z_canonical c :
  1 <= c <= 2 ^ 53 ->
  exists M E, f64_of_Z c = S754_finite false M E /\ Zpos (Pos.size M) = 53 /\ -52 <= E <= 1.
Proof.
  intros Hc. destruct (int_significand c Hc) as (M & E & HM & HE & Hv).
  exists M, E. split; [|done].
  unfold f64_of_Z. destruct c as [|m|m]; try lia.
  apply normalize_exact; [done | lia |].
  destruct Hv as [[? Hv] | [? Hv]].
  - left. split; [done|]. rewrite Hv. f_equal.
  - right. split; [done|]. rewrite Hv at 1. f_equal. f_equal. lia.
Qed.

Lemma clockValue_le_refl x : clockValue x -> f64_le x x.
Proof.
  intros [-> | [-> | (m & e & -> & _)]]; try reflexivity.
  unfold f64_le, SFleb, SFcompare. by rewrite Z.compare_refl, Pos.compare_cont_refl.
Qed.

(** Adding a frame count to a clock value gives a clock value that is not
    below it, whatever the rounding. *)
Lemma f64_add_monotone x n :
  clockValue x -> 0 <= n <= 2 ^ 53 ->
  clockValue (f64_add x (f64_of_Z n)) /\ f64_le x (f64_add x (f64_of_Z n)).
Proof.
  intros Hx Hn.
  destruct (Z.eq_dec n 0) as [-> | Hn0].
  { change (f64_of_Z 0) with (S754_zero false).
    assert (f64_add x (S754_zero false) = x) as ->.
    { by destruct Hx as [-> | [-> | (m & e & -> & _)]]. }
    split; [done | by apply clockValue_le_refl]. }
  destruct (f64_of_Z_canonical n ltac:(lia)) as (my & ey & -> & Hmy & Hey).
  destruct Hx as [-> | [-> | (mx & ex & -> & Hmx & Hex)]].
  - split; [|done]. right. right. exists my, ey. repeat split; done || lia.
  - split; [|done]. right. by left.
  - unfold f64_add, SFadd. cbn [cond_Zopp].
    rewrite !shl_align_value by lia.
    set (ez := Z.min ex ey).
    assert (0 < 2 ^ (ex - ez)) by (apply Z.pow_pos_nonneg; lia).
    assert (0 < 2 ^ (ey - ez)) by (apply Z.pow_pos_nonneg; lia).
    destruct (Zpos mx * 2 ^ (ex - ez) + Zpos my * 2 ^ (ey - ez)) as [|S|S] eqn:HS; try lia.
    destruct (normalize_lower_bound S ez mx ex Hmx ltac:(lia) ltac:(lia) ltac:(lia))
      as [-> | (M & E & -> & HM & HE & Hle)].
    + split; [|done]. right. by left.
    + split.
      * right. right. exists M, E. repeat split; done || lia.
      * unfold f64_le, SFleb, SFcompare.
        destruct (Z.compare_spec ex E) as [Heq | Hlt | Hgt]; [|done|lia].
        specialize (Hle (eq_sym Heq)).
        change (Pos.compare_cont Eq mx M) with (mx ?= M)%positive.
        destruct (Pos.compare_spec mx M); done || lia.
Qed.
End Float64.

(** * The zero-copy supply routine *)

Section RenderCallback.

Lemma to_UInt32_succ (i : nat) :
  Z.of_nat i + 1 < 2 ^ 32 -> to_UInt32 (Z.of_nat i + 1) = Z.of_nat (S i).
Proof.
  intros H. unfold to_UInt32. rewrite Z.mod_small by lia. lia.
Qed.

Lemma storeBufferList_again p a b mem :
  storeBufferList p a (storeBufferList p b mem) = storeBufferList p a mem.
Proof.
  unfold storeBufferList. cbn. f_equal. apply insert_insert_eq.
Qed.

Lemma storeBufferList_same p a mem :
  bufferLists mem !! p = Some a -> storeBufferList p a mem = mem.
Proof.
  intros H. unfold storeBufferList. destruct mem as [bl sb]. cbn in *.
  f_equal. by apply insert_id.
Qed.

Lemma aliasBuffer_self b : aliasBuffer b b = b.
Proof. by destruct b. Qed.

Lemma aliased_lookup k inABL outABL j :
  mBuffers (aliased k inABL outABL) !! j =
  (fun outBuffer =>
     match mBuffers inABL !! j with
     | Some inBuffer => if decide (j < k)%nat then aliasBuffer inBuffer outBuffer else outBuffer
     | None => outBuffer
     end) <$> mBuffers outABL !! j.
Proof. unfold aliased. cbn. by rewrite list_lookup_imap. Qed.

Lemma aliased_0 inABL outABL : aliased 0 inABL outABL = outABL.
Proof.
  destruct outABL as [n bufs]. unfold aliased. cbn. f_equal.
  apply list_eq. intros j. rewrite list_lookup_imap.
  destruct (bufs !! j) as [b|]; cbn; [|done].
  destruct (mBuffers inABL !! j); [|done]. case_decide; [lia | done].
Qed.

Lemma aliased_self k abl : aliased k abl abl = abl.
Proof.
  destruct abl as [n bufs]. unfold aliased. cbn. f_equal.
  apply list_eq. intros j. rewrite list_lookup_imap.
  destruct (bufs !! j) as [b|]; cbn; [|done].
  case_decide; by rewrite ?aliasBuffer_self.
Qed.

Lemma aliased_length k inABL outABL :
  length (mBuffers (aliased k inABL outABL)) = length (mBuffers outABL).
Proof. unfold aliased. cbn. apply length_imap. Qed.

(** One turn of the loop: writing the data pointer of buffer [i]. *)
Lemma setData_aliased i inABL outABL inBuffer :
  mBuffers inABL !! i = Some inBuffer ->
  setData (aliased i inABL outABL) i (mData inBuffer) = aliased (S i) inABL outABL.
Proof.
  intros Hin. unfold setData, aliased. cbn. f_equal.
  apply list_eq. intros j. rewrite list_lookup_alter.
  case_decide as Hj.
  - subst j. rewrite !list_lookup_imap.
    destruct (mBuffers outABL !! i) as [b|]; cbn; [|done].
    rewrite Hin. rewrite decide_False by lia. rewrite decide_True by lia. done.
  - rewrite !list_lookup_imap.
    destruct (mBuffers outABL !! j) as [b|]; cbn; [|done].
    destruct (mBuffers inABL !! j); [|done].
    repeat case_decide; try lia; done.
Qed.

(** The comparison the loop makes on a pair of buffers. *)
Lemma shape_test_true a b :
  sameShape a b ->
  negb ((mNumberChannels a =? mNumberChannels b) && (mDataByteSize a =? mDataByteSize b))
  = false.
Proof. intros [-> ->]. by rewrite !Z.eqb_refl. Qed.

Lemma shape_test_false a b :
  ~ sameShape a b ->
  negb ((mNumberChannels a =? mNumberChannels b) && (mDataByteSize a =? mDataByteSize b))
  = true.
Proof.
  intros H. unfold sameShape in H.
  destruct (Z.eqb_spec (mNumberChannels a) (mNumberChannels b));
    destruct (Z.eqb_spec (mDataByteSize a) (mDataByteSize b)); cbn; tauto.
Qed.

Section Loop.
Variables (pThis : SystemAudioMixer) (ioData : ptr) (inABL outABL : AudioBufferList).
Hypothesis Halias : renderCallbackInputABL_ pThis = ioData -> inABL = outABL.

Local Abbreviation atTurn := (atTurn pThis ioData inABL outABL).

Lemma atTurn_step i mem inBuffer :
  atTurn i mem ->
  mBuffers inABL !! i = Some inBuffer ->
  atTurn (S i)
    (storeBufferList ioData (setData (aliased i inABL outABL) i (mData inBuffer)) mem).
Proof using Halias.
  intros [Hin Hout] Hb. rewrite setData_aliased by done.
  split; unfold storeBufferList; cbn.
  - destruct (decide (renderCallbackInputABL_ pThis = ioData)) as [Heq | Hne].
    + rewrite Heq, lookup_insert_eq. rewrite <- (Halias Heq). by rewrite aliased_self.
    + by rewrite lookup_insert_ne.
  - by rewrite lookup_insert_eq.
Qed.

Lemma renderCallback_loop_aliases todo : forall i mem,
  atTurn i mem ->
  Z.of_nat (i + todo) < 2 ^ 32 ->
  (forall j, (i <= j < i + todo)%nat ->
     exists a b, mBuffers inABL !! j = Some a /\ mBuffers outABL !! j = Some b /\
                 sameShape a b) ->
  renderCallback_loop todo (Z.of_nat i) pThis ioData mem
  = Some (noErr, storeBufferList ioData (aliased (i + todo) inABL outABL) mem).
Proof using Halias.
  induction todo as [|todo IH]; intros i mem Hinv Hn Hshape.
  - cbn. rewrite Nat.add_0_r. destruct Hinv as [_ Hout].
    by rewrite storeBufferList_same.
  - destruct (Hshape i ltac:(lia)) as (a & b & Ha & Hb & Hab).
    pose proof Hinv as [Hin Hout].
    cbn [renderCallback_loop]. rewrite Hin, Hout. cbn. rewrite Nat2Z.id, Ha.
    rewrite aliased_lookup, Hb, Ha. cbn. rewrite decide_False by lia. cbn.
    rewrite shape_test_true by done.
    rewrite to_UInt32_succ by lia.
    rewrite IH.
    + rewrite storeBufferList_again.
      by replace (S i + todo)%nat with (i + S todo)%nat by lia.
    + by apply atTurn_step.
    + lia.
    + intros j Hj. apply Hshape. lia.
Qed.

Lemma renderCallback_loop_mismatch todo : forall i k mem,
  atTurn i mem ->
  Z.of_nat (i + todo) < 2 ^ 32 ->
  (i <= k < i + todo)%nat ->
  (forall j, (i <= j < k)%nat ->
     exists a b, mBuffers inABL !! j = Some a /\ mBuffers outABL !! j = Some b /\
                 sameShape a b) ->
  (exists a b, mBuffers inABL !! k = Some a /\ mBuffers outABL !! k = Some b /\
               ~ sameShape a b) ->
  renderCallback_loop todo (Z.of_nat i) pThis ioData mem
  = Some (kAudio_ParamError, storeBufferList ioData (aliased k inABL outABL) mem).
Proof using Halias.
  induction todo as [|todo IH]; intros i k mem Hinv Hn Hk Hshape Hbad; [lia|].
  pose proof Hinv as [Hin Hout].
  cbn [renderCallback_loop]. rewrite Hin, Hout. cbn. rewrite Nat2Z.id.
  destruct (decide (i = k)) as [-> | Hik].
  - destruct Hbad as (a & b & Ha & Hb & Hab).
    rewrite Ha, aliased_lookup, Hb, Ha. cbn. rewrite decide_False by lia. cbn.
    rewrite shape_test_false by done. by rewrite storeBufferList_same.
  - destruct (Hshape i ltac:(lia)) as (a & b & Ha & Hb & Hab).
    rewrite Ha, aliased_lookup, Hb, Ha. cbn. rewrite decide_False by lia. cbn.
    rewrite shape_test_true by done.
    rewrite to_UInt32_succ by lia.
    rewrite (IH (S i) k).
    + by rewrite storeBufferList_again.
    + by apply atTurn_step.
    + lia.
    + lia.
    + intros j Hj. apply Hshape. lia.
    + done.
Qed.
End Loop.

Lemma shapesMatchBelow_pairs k inABL outABL :
  (k <= length (mBuffers inABL))%nat -> (k <= length (mBuffers outABL))%nat ->
  shapesMatchBelow k inABL outABL ->
  forall j, (j < k)%nat ->
    exists a b, mBuffers inABL !! j = Some a /\ mBuffers outABL !! j = Some b /\ sameShape a b.
Proof.
  intros Hin Hout Hm j Hj.
  destruct (lookup_lt_is_Some_2 (mBuffers inABL) j ltac:(lia)) as [a Ha].
  destruct (lookup_lt_is_Some_2 (mBuffers outABL) j ltac:(lia)) as [b Hb].
  exists a, b. eauto.
Qed.

(** C1.  When [mix] has bound [inputABL] and the input and output lists have
    the same number of buffers, pair by pair of the same channel count and
    byte size, the supply routine returns [noErr] and leaves every output
    buffer with the data pointer of the corresponding input buffer; it
    writes nothing else: counts, channel counts and byte sizes, the other
    buffer lists and the sample bytes are as before. *)
Theorem renderCallback_aliases_output
    (me : SystemAudioMixer) (inputABL outputABL : ptr) (inABL outABL : AudioBufferList)
    (mem : Memory) (ioActionFlags : ptr) (ts : AudioTimeStamp) (bus frames : UInt32) :
  bufferLists mem !! inputABL = Some inABL ->
  bufferLists mem !! outputABL = Some outABL ->
  wellFormedABL inABL -> wellFormedABL outABL ->
  mNumberBuffers inABL = mNumberBuffers outABL ->
  shapesMatchBelow (Z.to_nat (mNumberBuffers outABL)) inABL outABL ->
  exists outABL',
    renderCallback (set_renderCallbackInputABL_ inputABL me)
      ioActionFlags ts bus frames outputABL mem
    = Some (noErr, storeBufferList outputABL outABL' mem) /\
    mNumberBuffers outABL' = mNumberBuffers outABL /\
    length (mBuffers outABL') = length (mBuffers outABL) /\
    (forall j inBuffer outBuffer,
       Z.of_nat j < mNumberBuffers outABL ->
       mBuffers inABL !! j = Some inBuffer -> mBuffers outABL !! j = Some outBuffer ->
       mBuffers outABL' !! j = Some (aliasBuffer inBuffer outBuffer)) /\
    (forall j, mNumberBuffers outABL <= Z.of_nat j ->
       mBuffers outABL' !! j = mBuffers outABL !! j) /\
    sampleBytes (storeBufferList outputABL outABL' mem) = sampleBytes mem /\
    (forall p, p <> outputABL ->
       bufferLists (storeBufferList outputABL outABL' mem) !! p = bufferLists mem !! p).
Proof.
  intros Hin Hout [[Hin0 Hin32] Hinlen] [[Hout0 Hout32] Houtlen] Hcount Hshape.
  set (n := Z.to_nat (mNumberBuffers outABL)) in *.
  exists (aliased n inABL outABL).
  split; [| split; [done | split; [apply aliased_length | split; [| split; [| split]]]]].
  - unfold renderCallback. cbn. rewrite Hin, Hout. cbn.
    rewrite Hcount, Z.eqb_refl. cbn.
    change 0 with (Z.of_nat 0).
    rewrite (renderCallback_loop_aliases _ outputABL inABL outABL).
    + done.
    + cbn. intros <-. congruence.
    + split; cbn; [done | by rewrite aliased_0].
    + cbn. lia.
    + intros j Hj. apply shapesMatchBelow_pairs with (k := n); lia || done.
  - intros j a b Hj Ha Hb. rewrite aliased_lookup, Hb, Ha. cbn.
    by rewrite decide_True by lia.
  - intros j Hj. rewrite aliased_lookup.
    destruct (mBuffers outABL !! j); cbn; [|done].
    destruct (mBuffers inABL !! j); [|done]. by rewrite decide_False by lia.
  - done.
  - intros p Hp. unfold storeBufferList. cbn. by rewrite lookup_insert_ne.
Qed.

Lemma renderCallback_aliases_output_witness :
  renderCallback (set_renderCallbackInputABL_ 0x1000 rawMixer)
    nullptr zeroTimeStamp 0 512 0x2000 sampleMemory
  = Some (noErr,
          storeBufferList 0x2000
            {| mNumberBuffers := 2;
               mBuffers := [monoBuffer 2048 0x5000; monoBuffer 2048 0x5800] |}
            sampleMemory).
Proof.
  destruct (renderCallback_aliases_output rawMixer 0x1000 0x2000 inputList outputList
              sampleMemory nullptr zeroTimeStamp 0 512)
    as (out' & Hrun & Hn & Hlen & Hdata & _).
  - reflexivity.
  - reflexivity.
  - unfold wellFormedABL, is_UInt32. simpl. lia.
  - unfold wellFormedABL, is_UInt32. simpl. lia.
  - reflexivity.
  - intros [|[|j]] a b Hj Ha Hb; simpl in *; try lia.
    + injection Ha as <-. injection Hb as <-. split; reflexivity.
    + injection Ha as <-. injection Hb as <-. split; reflexivity.
  - rewrite Hrun. do 3 f_equal.
    destruct out' as [n' bufs]. simpl in *. subst n'. f_equal.
    pose proof (Hdata 0%nat _ _ ltac:(lia) eq_refl eq_refl) as H0.
    pose proof (Hdata 1%nat _ _ ltac:(lia) eq_refl eq_refl) as H1.
    destruct bufs as [|b0 [|b1 [|b2 bufs]]]; simpl in *; try discriminate.
    by injection H0 as ->; injection H1 as ->.
Defined.

(** C4.  The supply routine returns [kAudio_ParamError] at once, with the
    memory untouched, when the two lists differ in their buffer counts.
    When the counts agree and the first pair that differs in channel count
    or byte size is at index [i], it returns [kAudio_ParamError] too; every
    output buffer from [i] on is as it was, and the buffers below [i] have
    been aliased to their input counterparts. *)
Theorem renderCallback_rejects_mismatch
    (me : SystemAudioMixer) (inputABL outputABL : ptr) (inABL outABL : AudioBufferList)
    (mem : Memory) (ioActionFlags : ptr) (ts : AudioTimeStamp) (bus frames : UInt32) :
  bufferLists mem !! inputABL = Some inABL ->
  bufferLists mem !! outputABL = Some outABL ->
  wellFormedABL inABL -> wellFormedABL outABL ->
  (mNumberBuffers inABL <> mNumberBuffers outABL ->
   renderCallback (set_renderCallbackInputABL_ inputABL me)
     ioActionFlags ts bus frames outputABL mem
   = Some (kAudio_ParamError, mem)) /\
  (forall (i : nat) (inBuffer outBuffer : AudioBuffer),
     mNumberBuffers inABL = mNumberBuffers outABL ->
     Z.of_nat i < mNumberBuffers outABL ->
     shapesMatchBelow i inABL outABL ->
     mBuffers inABL !! i = Some inBuffer -> mBuffers outABL !! i = Some outBuffer ->
     ~ sameShape inBuffer outBuffer ->
     exists outABL',
       renderCallback (set_renderCallbackInputABL_ inputABL me)
         ioActionFlags ts bus frames outputABL mem
       = Some (kAudio_ParamError, storeBufferList outputABL outABL' mem) /\
       mNumberBuffers outABL' = mNumberBuffers outABL /\
       (forall j, (i <= j)%nat -> mBuffers outABL' !! j = mBuffers outABL !! j) /\
       (forall j a b, (j < i)%nat ->
          mBuffers inABL !! j = Some a -> mBuffers outABL !! j = Some b ->
          mBuffers outABL' !! j = Some (aliasBuffer a b)) /\
       sampleBytes (storeBufferList outputABL outABL' mem) = sampleBytes mem /\
       (forall p, p <> outputABL ->
          bufferLists (storeBufferList outputABL outABL' mem) !! p = bufferLists mem !! p)).
Proof.
  intros Hin Hout [[Hin0 Hin32] Hinlen] [[Hout0 Hout32] Houtlen]. split.
  - intros Hne. unfold renderCallback. cbn. rewrite Hin, Hout. cbn.
    destruct (Z.eqb_spec (mNumberBuffers inABL) (mNumberBuffers outABL)); [done|].
    reflexivity.
  - intros i a b Hcount Hi Hshape Ha Hb Hbad.
    exists (aliased i inABL outABL).
    split; [| split; [done | split; [| split; [| split]]]].
    + unfold renderCallback. cbn. rewrite Hin, Hout. cbn.
      rewrite Hcount, Z.eqb_refl. cbn.
      change 0 with (Z.of_nat 0).
      rewrite (renderCallback_loop_mismatch _ outputABL inABL outABL) with (k := i).
      * done.
      * cbn. intros <-. congruence.
      * split; cbn; [done | by rewrite aliased_0].
      * cbn. lia.
      * lia.
      * intros j Hj. apply shapesMatchBelow_pairs with (k := i); lia || done.
      * eauto.
    + intros j Hj. rewrite aliased_lookup.
      destruct (mBuffers outABL !! j); cbn; [|done].
      destruct (mBuffers inABL !! j); [|done]. by rewrite decide_False by lia.
    + intros j a' b' Hj Ha' Hb'. rewrite aliased_lookup, Hb', Ha'. cbn.
      by rewrite decide_True by lia.
    + done.
    + intros p Hp. unfold storeBufferList. cbn. by rewrite lookup_insert_ne.
Qed.

Lemma renderCallback_rejects_mismatch_witness :
  renderCallback (set_renderCallbackInputABL_ 0x1000 rawMixer)
    nullptr zeroTimeStamp 0 512 0x3000 sampleMemory
  = Some (kAudio_ParamError, sampleMemory) /\
  exists outABL',
    renderCallback (set_renderCallbackInputABL_ 0x1000 rawMixer)
      nullptr zeroTimeStamp 0 512 0x4000 sampleMemory
    = Some (kAudio_ParamError, storeBufferList 0x4000 outABL' sampleMemory) /\
    mBuffers outABL' !! 0%nat = Some (monoBuffer 2048 0x5000) /\
    mBuffers outABL' !! 1%nat = Some (monoBuffer 1024 nullptr).
Proof.
  split.
  - apply (renderCallback_rejects_mismatch rawMixer 0x1000 0x3000 inputList shortOutputList
             sampleMemory nullptr zeroTimeStamp 0 512); try reflexivity.
    + unfold wellFormedABL, is_UInt32. simpl. lia.
    + unfold wellFormedABL, is_UInt32. simpl. lia.
    + simpl. lia.
  - destruct (renderCallback_rejects_mismatch rawMixer 0x1000 0x4000 inputList oddOutputList
                sampleMemory nullptr zeroTimeStamp 0 512) as [_ Hpair]; try reflexivity.
    + unfold wellFormedABL, is_UInt32. simpl. lia.
    + unfold wellFormedABL, is_UInt32. simpl. lia.
    + assert (Hbelow : shapesMatchBelow 1 inputList oddOutputList).
      { intros [|j] a b Hj Ha Hb; simpl in *; try lia.
        injection Ha as <-. injection Hb as <-. split; reflexivity. }
      assert (Hbad : ~ sameShape (monoBuffer 2048 0x5800) (monoBuffer 1024 nullptr)).
      { unfold sameShape. simpl. lia. }
      destruct (Hpair 1%nat (monoBuffer 2048 0x5800) (monoBuffer 1024 nullptr)
                  eq_refl eq_refl Hbelow eq_refl eq_refl Hbad)
        as (out' & Hrun & _ & Hrest & Hdone & _).
      exists out'. split; [exact Hrun|]. split.
      * apply (Hdone 0%nat (monoBuffer 2048 0x5000) (monoBuffer 2048 nullptr));
          [lia | reflexivity | reflexivity].
      * rewrite Hrest by lia. reflexivity.
Defined.
End RenderCallback.

(** * Calls, plans and early returns *)

Section Plans.
Context {World : Type} (AT : AudioToolbox World).

Lemma sameIdentity_refl m : sameIdentity m m.
Proof. by repeat split. Qed.

Lemma sameIdentity_trans m1 m2 m3 :
  sameIdentity m1 m2 -> sameIdentity m2 m3 -> sameIdentity m1 m3.
Proof. intros (? & ? & ?) (? & ? & ?). repeat split; congruence. Qed.

Lemma stopsAtFirstFailure_single (ev : Event) :
  stopsAtFirstFailure (replyStatus ev.2) [ev].
Proof.
  destruct (decide (replyStatus ev.2 = noErr)) as [Hok | Hbad].
  - left. split; [done|]. by constructor.
  - right. split; [done|]. by exists [], ev.
Qed.

Lemma stopsAtFirstFailure_app status evs1 evs2 :
  Forall succeeded evs1 -> stopsAtFirstFailure status evs2 ->
  stopsAtFirstFailure status (evs1 ++ evs2).
Proof.
  intros H1 [[Hok H2] | (Hbad & done & ev & -> & Hdone & Hev)].
  - left. split; [done|]. by apply Forall_app.
  - right. split; [done|]. exists (evs1 ++ done), ev.
    split; [by rewrite app_assoc|]. split; [by apply Forall_app | done].
Qed.

Lemma stopsAtFirstFailure_ok evs : stopsAtFirstFailure noErr evs -> Forall succeeded evs.
Proof. by intros [[_ H] | [H _]]. Qed.

(** A single call that answers with a status. *)
Lemma followsPlan_perform (call : Call) (f : World -> OSStatus * World) s :
  followsPlan (perform call ReplyStatus f) s [call] (fun m => m = this s).
Proof.
  unfold followsPlan, perform. destruct (f (world s)) as [status w]. cbn.
  exists [(call, ReplyStatus status)]. repeat split; try done.
  apply (stopsAtFirstFailure_single (call, ReplyStatus status)).
Qed.

Lemma followsPlan_ret s (Q : SystemAudioMixer -> Prop) :
  Q (this s) -> followsPlan (ret noErr : M World OSStatus) s [] Q.
Proof.
  intros HQ. exists []. cbn. rewrite app_nil_r.
  repeat split; try done. left. split; [done | constructor].
Qed.

Lemma followsPlan_weaken (c : M World OSStatus) s plan (Q Q' : SystemAudioMixer -> Prop) :
  followsPlan c s plan Q -> (forall m, Q m -> Q' m) -> followsPlan c s plan Q'.
Proof.
  intros (evs & ? & ? & ? & Hok & ? & ?) HQ. exists evs.
  split; [done|]. split; [done|]. split; [done|]. split; [|done].
  intros H'. destruct (Hok H'). auto.
Qed.

(** [status = c; if (noErr != status) return status;] and then [k]. *)
Lemma followsPlan_try (c k : M World OSStatus) s plan1 plan2
    (Q1 Q2 : SystemAudioMixer -> Prop) :
  followsPlan c s plan1 Q1 ->
  ((c s).1 = noErr -> Q1 (this (c s).2) -> followsPlan k (c s).2 plan2 Q2) ->
  followsPlan (try! c in k) s (plan1 ++ plan2) Q2.
Proof.
  intros (evs1 & Hlog1 & Hstop1 & Hpre1 & Hok1 & Hmem1 & Hid1) Hk.
  unfold followsPlan, orReturn, bind.
  destruct (c s) as [status s1] eqn:Hc. cbn in *.
  case_decide as Hstatus; cbn.
  - exists evs1. repeat split; try done; try apply Hid1.
    by apply prefix_app_r.
  - assert (status = noErr) as -> by (destruct (decide (noErr = status)); done).
    destruct (Hok1 eq_refl) as [Hplan1 HQ1].
    destruct (Hk eq_refl HQ1) as (evs2 & Hlog2 & Hstop2 & Hpre2 & Hok2 & Hmem2 & Hid2).
    exists (evs1 ++ evs2). split; [|split; [|split; [|split; [|split]]]].
    + by rewrite Hlog2, Hlog1, app_assoc.
    + apply stopsAtFirstFailure_app; [by apply stopsAtFirstFailure_ok | done].
    + rewrite fmap_app, Hplan1. by apply prefix_app.
    + intros Hok. destruct (Hok2 Hok) as [Hplan2 HQ2].
      split; [|done]. by rewrite fmap_app, Hplan1, Hplan2.
    + congruence.
    + by eapply sameIdentity_trans.
Qed.

Lemma followsPlan_getThis (k : SystemAudioMixer -> M World OSStatus) s plan Q :
  followsPlan (k (this s)) s plan Q -> followsPlan (let! me := getThis in k me) s plan Q.
Proof. done. Qed.

Lemma followsPlan_modifyThis (f : SystemAudioMixer -> SystemAudioMixer)
    (k : M World OSStatus) s plan Q :
  sameIdentity (this s) (f (this s)) ->
  followsPlan k {| this := f (this s); world := world s; memory := memory s;
                   calls := calls s |} plan Q ->
  followsPlan (let! _ := modifyThis f in k) s plan Q.
Proof.
  intros Hid (evs & ? & ? & ? & ? & ? & Hid'). exists evs.
  split; [done|]. split; [done|]. split; [done|]. split; [done|]. split; [done|].
  eapply sameIdentity_trans; done.
Qed.

Lemma followsPlan_callSetProperty id scope element data (s : Machine World) unit :
  mixerUnit_ (this s) = unit ->
  followsPlan (callSetProperty AT id scope element data) s
    [CallSetProperty unit id scope element data] (fun m => m = this s).
Proof. intros <-. apply followsPlan_perform. Qed.

Lemma followsPlan_callSetParameter id scope element value offset (s : Machine World) unit :
  mixerUnit_ (this s) = unit ->
  followsPlan (callSetParameter AT id scope element value offset) s
    [CallSetParameter unit id scope element value offset] (fun m => m = this s).
Proof. intros <-. apply followsPlan_perform. Qed.

Lemma followsPlan_callInitialize (s : Machine World) unit :
  mixerUnit_ (this s) = unit ->
  followsPlan (callInitialize AT) s [CallInitialize unit] (fun m => m = this s).
Proof. intros <-. apply followsPlan_perform. Qed.

Lemma followsPlan_callUninitialize (s : Machine World) unit :
  mixerUnit_ (this s) = unit ->
  followsPlan (callUninitialize AT) s [CallUninitialize unit] (fun m => m = this s).
Proof. intros <-. apply followsPlan_perform. Qed.

Lemma followsPlan_callInstanceDispose (s : Machine World) unit :
  mixerUnit_ (this s) = unit ->
  followsPlan (callInstanceDispose AT) s [CallInstanceDispose unit] (fun m => m = this s).
Proof. intros <-. apply followsPlan_perform. Qed.

Lemma followsPlan_configureMixer (s : Machine World) unit :
  mixerUnit_ (this s) = unit ->
  followsPlan (configureMixer AT) s
    [CallSetProperty unit kAudioUnitProperty_BusCount kAudioUnitScope_Input 0 (PropUInt32 1);
     CallSetProperty unit kAudioUnitProperty_BusCount kAudioUnitScope_Output 0 (PropUInt32 1)]
    (fun m => m = this s).
Proof.
  intros Hunit. unfold configureMixer.
  eapply (followsPlan_try _ _ _ [_] [_]); [by apply followsPlan_callSetProperty|].
  intros _ Hthis. cbv beta in Hthis.
  eapply (followsPlan_try _ _ _ [_] []).
  { apply followsPlan_callSetProperty. by rewrite Hthis. }
  intros _ Hthis'. cbv beta in Hthis'. apply followsPlan_ret. congruence.
Qed.

Lemma followsPlan_configureStreamFormats inputASBD outputASBD (s : Machine World) unit :
  mixerUnit_ (this s) = unit ->
  followsPlan (configureStreamFormats AT inputASBD outputASBD) s
    [CallSetProperty unit kAudioUnitProperty_StreamFormat kAudioUnitScope_Input 0
       (PropStreamFormat inputASBD);
     CallSetProperty unit kAudioUnitProperty_StreamFormat kAudioUnitScope_Output 0
       (PropStreamFormat outputASBD)]
    (fun m => m = set_mixerOutputChannels_ (mChannelsPerFrame outputASBD)
                (set_mixerInputChannels_ (mChannelsPerFrame inputASBD) (this s))).
Proof.
  intros Hunit. unfold configureStreamFormats.
  eapply (followsPlan_try _ _ _ [_] [_]); [by apply followsPlan_callSetProperty|].
  intros _ Hthis. cbv beta in Hthis.
  apply followsPlan_modifyThis; [by repeat split|].
  eapply (followsPlan_try _ _ _ [_] []).
  { apply followsPlan_callSetProperty.
    cbn [this mixerUnit_ set_mixerInputChannels_]. by rewrite Hthis. }
  intros _ Hthis'. cbv beta in Hthis'.
  apply followsPlan_modifyThis; [by repeat split|].
  apply followsPlan_ret. cbn [this]. rewrite Hthis'. cbn [this]. by rewrite Hthis.
Qed.

(** The volume loop from index [i] on. *)
Lemma followsPlan_setChannelVolumes scope unit todo : forall (i : nat) (s : Machine World),
  mixerUnit_ (this s) = unit ->
  Z.of_nat (i + todo) < 2 ^ 32 ->
  followsPlan (setChannelVolumes AT scope todo (Z.of_nat i)) s
    ((fun j => CallSetParameter unit kMatrixMixerParam_Volume scope j f32_one 0)
       <$> seqZ (Z.of_nat i) (Z.of_nat todo))
    (fun m => m = this s).
Proof.
  induction todo as [|todo IH]; intros i s Hunit Hn.
  - cbn. by apply followsPlan_ret.
  - cbn [setChannelVolumes].
    rewrite seqZ_cons by lia. rewrite fmap_cons.
    eapply (followsPlan_try _ _ _ [_]); [by apply followsPlan_callSetParameter|].
    intros _ Hthis. cbv beta in Hthis. rewrite to_UInt32_succ by lia.
    replace (Z.succ (Z.of_nat i)) with (Z.of_nat (S i)) by lia.
    replace (Z.pred (Z.of_nat (S todo))) with (Z.of_nat todo) by lia.
    eapply followsPlan_weaken.
    + apply IH; [by rewrite Hthis | lia].
    + intros m ->. done.
Qed.

(** Everything [initialize] does once the instance exists. *)
Lemma followsPlan_configuration inputASBD outputASBD (s : Machine World) unit :
  mixerUnit_ (this s) = unit ->
  is_UInt32 (mChannelsPerFrame inputASBD) -> is_UInt32 (mChannelsPerFrame outputASBD) ->
  followsPlan
    (try! configureMixer AT in
     try! configureStreamFormats AT inputASBD outputASBD in
     try! callSetProperty AT kAudioUnitProperty_ShouldAllocateBuffer kAudioUnitScope_Input 0
            (PropUInt32 0) in
     try! callSetProperty AT kAudioUnitProperty_SetRenderCallback kAudioUnitScope_Global 0
            PropRenderCallback in
     try! callInitialize AT in
     try! callSetParameter AT kMatrixMixerParam_Volume kAudioUnitScope_Global 0xFFFFFFFF
            f32_one 0 in
     let! me := getThis in
     try! setChannelVolumes AT kAudioUnitScope_Input (Z.to_nat (mixerInputChannels_ me)) 0 in
     try! setChannelVolumes AT kAudioUnitScope_Output (Z.to_nat (mixerOutputChannels_ me)) 0 in
     ret noErr)
    s (configurationPlan unit inputASBD outputASBD)
    (fun m => m = set_mixerOutputChannels_ (mChannelsPerFrame outputASBD)
                (set_mixerInputChannels_ (mChannelsPerFrame inputASBD) (this s))).
Proof.
  intros Hunit [Hin0 Hin32] [Hout0 Hout32].
  set (configured := set_mixerOutputChannels_ (mChannelsPerFrame outputASBD)
                       (set_mixerInputChannels_ (mChannelsPerFrame inputASBD) (this s))).
  assert (Hcu : mixerUnit_ configured = unit) by done.
  change (configurationPlan unit inputASBD outputASBD) with
    ([CallSetProperty unit kAudioUnitProperty_BusCount kAudioUnitScope_Input 0 (PropUInt32 1);
      CallSetProperty unit kAudioUnitProperty_BusCount kAudioUnitScope_Output 0 (PropUInt32 1)]
     ++ [CallSetProperty unit kAudioUnitProperty_StreamFormat kAudioUnitScope_Input 0
           (PropStreamFormat inputASBD);
         CallSetProperty unit kAudioUnitProperty_StreamFormat kAudioUnitScope_Output 0
           (PropStreamFormat outputASBD)]
     ++ [CallSetProperty unit kAudioUnitProperty_ShouldAllocateBuffer kAudioUnitScope_Input 0
           (PropUInt32 0)]
     ++ [CallSetProperty unit kAudioUnitProperty_SetRenderCallback kAudioUnitScope_Global 0
           PropRenderCallback]
     ++ [CallInitialize unit]
     ++ [CallSetParameter unit kMatrixMixerParam_Volume kAudioUnitScope_Global 0xFFFFFFFF
           f32_one 0]
     ++ volumeCalls unit kAudioUnitScope_Input (mChannelsPerFrame inputASBD)
     ++ volumeCalls unit kAudioUnitScope_Output (mChannelsPerFrame outputASBD)).
  eapply followsPlan_try; [by apply followsPlan_configureMixer|].
  intros _ H1. cbv beta in H1.
  eapply followsPlan_try; [apply followsPlan_configureStreamFormats; by rewrite H1|].
  intros _ H2. cbv beta in H2. rewrite H1 in H2. fold configured in H2.
  eapply followsPlan_try; [apply followsPlan_callSetProperty; by rewrite H2|].
  intros _ H3. cbv beta in H3. rewrite H2 in H3.
  eapply followsPlan_try; [apply followsPlan_callSetProperty; by rewrite H3|].
  intros _ H4. cbv beta in H4. rewrite H3 in H4.
  eapply followsPlan_try; [apply followsPlan_callInitialize; by rewrite H4|].
  intros _ H5. cbv beta in H5. rewrite H4 in H5.
  eapply followsPlan_try; [apply followsPlan_callSetParameter; by rewrite H5|].
  intros _ H6. cbv beta in H6. rewrite H5 in H6.
  apply followsPlan_getThis. rewrite H6.
  cbn [configured mixerInputChannels_ mixerOutputChannels_
       set_mixerOutputChannels_ set_mixerInputChannels_].
  rewrite <- (app_nil_r (volumeCalls unit kAudioUnitScope_Output _)).
  eapply followsPlan_try.
  { unfold volumeCalls.
    rewrite <- (Z2Nat.id (mChannelsPerFrame inputASBD)) at 2 by lia.
    apply (followsPlan_setChannelVolumes _ _ _ 0%nat); [by rewrite H6 | lia]. }
  intros _ H7. cbv beta in H7. rewrite H6 in H7.
  eapply followsPlan_try.
  { unfold volumeCalls.
    rewrite <- (Z2Nat.id (mChannelsPerFrame outputASBD)) at 2 by lia.
    apply (followsPlan_setChannelVolumes _ _ _ 0%nat); [by rewrite H7 | lia]. }
  intros _ H8. cbv beta in H8. rewrite H7 in H8.
  by apply followsPlan_ret.
Qed.

(** The whole of [initialize], from any state. *)
Lemma initialize_run inputASBD outputASBD (s : Machine World) :
  is_UInt32 (mChannelsPerFrame inputASBD) -> is_UInt32 (mChannelsPerFrame outputASBD) ->
  let r := initialize AT inputASBD outputASBD s in
  exists evs,
    calls r.2 = calls s ++ evs /\
    stopsAtFirstFailure r.1 evs /\
    (fst <$> evs) `prefix_of`
      initializePlan (foundComponent evs) (mixerUnit_ (this r.2)) inputASBD outputASBD /\
    (r.1 = noErr ->
       fst <$> evs =
         initializePlan (foundComponent evs) (mixerUnit_ (this r.2)) inputASBD outputASBD /\
       mixerInputChannels_ (this r.2) = mChannelsPerFrame inputASBD /\
       mixerOutputChannels_ (this r.2) = mChannelsPerFrame outputASBD) /\
    memory r.2 = memory s /\
    sampleTime_ (this r.2) = sampleTime_ (this s) /\
    renderCallbackInputABL_ (this r.2) = renderCallbackInputABL_ (this s) /\
    ((AudioComponentFindNext AT nullptr mixerDesc (world s)).1 = nullptr ->
       r.1 = kAudioUnitErr_ExtensionNotFound /\
       evs = [(CallFindNext nullptr mixerDesc, ReplyComponent nullptr)] /\
       this r.2 = this s).
Proof.
  intros Hin Hout r.
  destruct r as [result s'] eqn:Hrun. subst r. cbn [fst snd].
  unfold initialize in Hrun.
  set (K := (try! configureMixer AT in _)) in Hrun.
  unfold bind at 1 in Hrun. unfold callFindNext, perform in Hrun.
  destruct (AudioComponentFindNext AT nullptr mixerDesc (world s)) as [comp w1] eqn:Hfind.
  cbn [fst snd].
  set (ev1 := (CallFindNext nullptr mixerDesc, ReplyComponent comp)) in Hrun.
  case_decide as Hcomp.
  { (* discovery failed *)
    injection Hrun as <- <-. subst comp. exists [ev1]. cbn.
    split; [done|]. split; [|split; [|split; [|split; [|split; [|split]]]]]; try done.
    - right. split; [done|]. by exists [], ev1.
    - apply prefix_cons, prefix_nil. }
  assert (Hev1 : succeeded ev1).
  { unfold succeeded, ev1. cbn. by rewrite decide_False. }
  unfold orReturn at 1 in Hrun. unfold bind at 1 in Hrun. unfold callInstanceNew in Hrun.
  unfold bind at 1 in Hrun. cbn [getThis this] in Hrun.
  unfold bind at 1 in Hrun. unfold perform at 1 in Hrun.
  cbn [world this memory calls] in Hrun.
  destruct (AudioComponentInstanceNew AT comp (mixerUnit_ (this s)) w1)
    as [[status unit] w2] eqn:Hnew.
  cbn [fst snd] in Hrun. unfold bind at 1 in Hrun. unfold modifyThis at 1 in Hrun.
  cbn [this world memory calls ret] in Hrun.
  set (ev2 := (CallInstanceNew comp, ReplyInstance status unit)) in Hrun.
  set (s2 := {| this := set_mixerUnit_ unit (this s); world := w2; memory := memory s;
                calls := (calls s ++ [ev1]) ++ [ev2] |}) in Hrun.
  case_decide as Hstatus.
  { (* instance creation failed *)
    injection Hrun as <- <-. exists [ev1; ev2]. cbn.
    split; [by rewrite <- app_assoc|].
    split; [|split; [|split; [|split; [|split; [|split]]]]]; try done.
    - right. split; [done|]. exists [ev1], ev2. split; [done|]. split; [|done].
      by constructor.
    - do 2 apply prefix_cons. apply prefix_nil. }
  assert (status = noErr) as -> by (destruct (decide (noErr = status)); done).
  assert (Hev2 : succeeded ev2) by done.
  destruct (followsPlan_configuration inputASBD outputASBD s2 unit eq_refl Hin Hout)
    as (evs & Hlog & Hstop & Hpre & Hok & Hmem & Hunit & Hclock & Hrc).
  fold K in Hlog, Hstop, Hok, Hmem, Hunit, Hclock, Hrc.
  rewrite Hrun in Hlog, Hstop, Hok, Hmem, Hunit, Hclock, Hrc.
  cbn [fst snd] in Hlog, Hstop, Hok, Hmem, Hunit, Hclock, Hrc.
  exists (ev1 :: ev2 :: evs). cbn [foundComponent ev1 fst snd].
  rewrite Hunit. cbn [s2 this mixerUnit_ set_mixerUnit_].
  split; [|split; [|split; [|split; [|split; [|split; [|split]]]]]].
  - rewrite Hlog. cbn [s2 calls]. by rewrite <- !app_assoc.
  - apply (stopsAtFirstFailure_app _ [ev1; ev2]); [|done]. by repeat constructor.
  - cbn [fmap list_fmap]. by do 2 apply prefix_cons.
  - intros Hsuccess. destruct (Hok Hsuccess) as [Hplan Hthis].
    cbn [fmap list_fmap]. split; [|by rewrite Hthis].
    unfold configurationPlan in Hplan. cbn [initializePlan app drop] in Hplan.
    cbn [initializePlan app]. by rewrite <- Hplan.
  - done.
  - done.
  - done.
  - intros ->. by destruct Hcomp.
Qed.
End Plans.

(** * Initialisation and teardown *)

Section Lifecycle.
Context {World : Type} (AT : AudioToolbox World).


(** C8.  [uninitialize] first deactivates the unit.  When that fails, its
    status is returned and the deactivation is the only call made: the
    instance is not disposed of.  Otherwise the instance is disposed of and
    the status of that step is returned, [noErr] when both succeeded. *)
Theorem uninitialize_deactivates_then_releases (s : Machine World) :
  let unit := mixerUnit_ (this s) in
  let r := uninitialize AT s in
  let deactivation := AudioUnitUninitialize AT unit (world s) in
  let release := AudioComponentInstanceDispose AT unit deactivation.2 in
  this r.2 = this s /\ memory r.2 = memory s /\
  (deactivation.1 <> noErr ->
     r.1 = deactivation.1 /\ world r.2 = deactivation.2 /\
     calls r.2 = calls s ++ [(CallUninitialize unit, ReplyStatus deactivation.1)]) /\
  (deactivation.1 = noErr ->
     r.1 = release.1 /\ world r.2 = release.2 /\
     calls r.2 = calls s ++ [(CallUninitialize unit, ReplyStatus noErr);
                             (CallInstanceDispose unit, ReplyStatus release.1)]) /\
  (deactivation.1 = noErr -> release.1 = noErr -> r.1 = noErr).
Proof.
  cbv zeta. unfold uninitialize, orReturn, bind, callUninitialize, callInstanceDispose,
    perform, getThis, ret. cbn.
  destruct (AudioUnitUninitialize AT (mixerUnit_ (this s)) (world s)) as [st1 w1]. cbn.
  case_decide as H1; cbn.
  - repeat split; try done; intros; congruence.
  - assert (st1 = noErr) as -> by (destruct (decide (noErr = st1)); done).
    destruct (AudioComponentInstanceDispose AT (mixerUnit_ (this s)) w1) as [st2 w2]. cbn.
    case_decide as H2; cbn.
    + repeat split; try done. by rewrite <- app_assoc.
    + assert (st2 = noErr) as -> by (destruct (decide (noErr = st2)); done).
      repeat split; try done. by rewrite <- app_assoc.
Qed.
End Lifecycle.

Lemma uninitialize_deactivates_then_releases_witness :
  let failing := uninitialize testDouble (freshMachine (scriptedDouble 0xC0 [-10867])) in
  let passing := uninitialize testDouble (freshMachine obligingDouble) in
  failing.1 = -10867 /\
  calls failing.2 = [(CallUninitialize 0xdead, ReplyStatus (-10867))] /\
  passing.1 = noErr /\
  calls passing.2 = [(CallUninitialize 0xdead, ReplyStatus noErr);
                     (CallInstanceDispose 0xdead, ReplyStatus noErr)].
Proof.
  destruct (uninitialize_deactivates_then_releases testDouble
              (freshMachine (scriptedDouble 0xC0 [-10867]))) as (_ & _ & Hfail & _).
  destruct (uninitialize_deactivates_then_releases testDouble (freshMachine obligingDouble))
    as (_ & _ & _ & Hpass & _).
  destruct Hfail as (Hstatus & _ & Hcalls); [vm_compute; discriminate|].
  destruct Hpass as (Hstatus' & _ & Hcalls'); [vm_compute; reflexivity|].
  split; [exact Hstatus|]. split; [exact Hcalls|]. split; [exact Hstatus'|]. exact Hcalls'.
Defined.


(** * The gains set by [initialize] *)

Section Gains.

Lemma recordedVolume_app log1 log2 scope element :
  recordedVolume (log1 ++ log2) scope element =
  match recordedVolume log2 scope element with
  | Some v => Some v
  | None => recordedVolume log1 scope element
  end.
Proof.
  induction log1 as [|ev log1 IH]; cbn.
  - by destruct (recordedVolume log2 scope element).
  - rewrite IH. by destruct (recordedVolume log2 scope element).
Qed.








End Gains.

(** * Rendering and the sample clock *)

Section Mix.
Context {World : Type} (AT : AudioToolbox World).

(** [mix] in one step. *)
Lemma mix_run (n : UInt32) (inputABL outputABL : ptr) (s : Machine World) :
  let me := set_renderCallbackInputABL_ inputABL (this s) in
  let render := mixRender AT n inputABL outputABL s in
  mix AT n inputABL outputABL s =
  (render.1.1,
   {| this := if decide (noErr = render.1.1)
              then set_sampleTime_ (f64_add (sampleTime_ (this s)) (f64_of_Z n)) me
              else me;
      world := render.1.2;
      memory := render.2;
      calls := calls s ++ [(CallRender (mixerUnit_ (this s)) nullptr (mixTimeStamp (this s))
                              0 n outputABL, ReplyStatus render.1.1)] |}).
Proof.
  cbv zeta. unfold mix, mixRender, bind, getThis, modifyThis, callRender, ret, mixTimeStamp.
  cbn.
  destruct (AudioUnitRender AT _ _ _ _ _ _ _ _ _) as [[status w] mem]. cbn.
  by case_decide.
Qed.

(** C2 (as amended).  [mix] makes one render call, stamped with the sample
    clock as it is on entry.  When that call returns [noErr], [mix] returns
    [noErr] and the clock is the [Float64] sum of its old value and the
    frame count; that sum is the old value plus exactly the frame count
    whenever the old value is a whole number [c] with
    [c + inNumberFrames <= 2^53]. *)
Theorem mix_stamps_and_advances (n : UInt32) (inputABL outputABL : ptr) (s : Machine World) :
  let r := mix AT n inputABL outputABL s in
  let render := mixRender AT n inputABL outputABL s in
  (exists ts,
     calls r.2 = calls s ++ [(CallRender (mixerUnit_ (this s)) nullptr ts 0 n outputABL,
                              ReplyStatus render.1.1)] /\
     mSampleTime ts = sampleTime_ (this s) /\
     mFlags ts = kAudioTimeStampSampleTimeValid) /\
  (render.1.1 = noErr ->
     r.1 = noErr /\
     sampleTime_ (this r.2) = f64_add (sampleTime_ (this s)) (f64_of_Z n) /\
     forall c, 0 <= c -> is_UInt32 n -> c + n <= 2 ^ 53 ->
       sampleTime_ (this s) = f64_of_Z c ->
       sampleTime_ (this r.2) = f64_of_Z (c + n) /\
       f64_to_Z (sampleTime_ (this r.2)) = Some (c + n)).
Proof.
  cbv zeta. rewrite mix_run. cbn. split.
  - by exists (mixTimeStamp (this s)).
  - intros Hok. rewrite Hok. cbn. split; [done|]. split; [done|].
    intros c Hc [Hn _] Hsum ->.
    rewrite f64_add_exact by lia. split; [done|].
    apply f64_to_Z_of_Z. lia.
Qed.

(** C3.  When the render call returns a status other than [noErr], [mix]
    returns that very status and the sample clock is as it was. *)
Theorem mix_propagates_render_failure (n : UInt32) (inputABL outputABL : ptr)
    (s : Machine World) :
  let r := mix AT n inputABL outputABL s in
  let render := mixRender AT n inputABL outputABL s in
  render.1.1 <> noErr ->
  r.1 = render.1.1 /\ sampleTime_ (this r.2) = sampleTime_ (this s).
Proof.
  cbv zeta. intros Hbad. rewrite mix_run. cbn. split; [done|].
  by rewrite decide_False by congruence.
Qed.
End Mix.

Lemma mix_stamps_and_advances_witness :
  let r := mix testDouble 512 0x1000 0x2000 (freshMachine obligingDouble) in
  r.1 = noErr /\ f64_to_Z (sampleTime_ (this r.2)) = Some 512.
Proof.
  destruct (mix_stamps_and_advances testDouble 512 0x1000 0x2000 (freshMachine obligingDouble))
    as [_ Hadvance].
  destruct Hadvance as (Hstatus & _ & Hexact); [vm_compute; reflexivity|].
  split; [exact Hstatus|].
  apply (Hexact 0).
  - lia.
  - unfold is_UInt32. lia.
  - lia.
  - reflexivity.
Defined.

Lemma mix_propagates_render_failure_witness :
  let r := mix testDouble 512 0x1000 0x3000 (freshMachine obligingDouble) in
  r.1 = kAudio_ParamError /\ sampleTime_ (this r.2) = f64_of_Z 0.
Proof.
  destruct (mix_propagates_render_failure testDouble 512 0x1000 0x3000
              (freshMachine obligingDouble)) as [Hstatus Hclock].
  - vm_compute. discriminate.
  - split; [rewrite Hstatus; vm_compute; reflexivity | exact Hclock].
Defined.

(** * The sample clock over sequences of operations *)

Section Clock.
Context {World : Type} (AT : AudioToolbox World).

Lemma keepsClock_ret {A} (a : A) : keepsClock (ret a : M World A).
Proof. done. Qed.

Lemma keepsClock_bind {A B} (c : M World A) (k : A -> M World B) :
  keepsClock c -> (forall a, keepsClock (k a)) -> keepsClock (bind c k).
Proof.
  intros Hc Hk s. unfold bind. specialize (Hc s).
  destruct (c s) as [a s1]. cbn in *. by rewrite Hk.
Qed.

Lemma keepsClock_orReturn (c k : M World OSStatus) :
  keepsClock c -> keepsClock k -> keepsClock (try! c in k).
Proof.
  intros Hc Hk. apply keepsClock_bind; [done|].
  intros status. case_decide; [apply keepsClock_ret | done].
Qed.

Lemma keepsClock_perform {A} call (reply : A -> Reply) (f : World -> A * World) :
  keepsClock (perform call reply f).
Proof. intros s. unfold perform. by destruct (f (world s)). Qed.

Lemma keepsClock_getThis : keepsClock (getThis : M World SystemAudioMixer).
Proof. done. Qed.

Lemma keepsClock_modifyThis (f : SystemAudioMixer -> SystemAudioMixer) :
  (forall m, sampleTime_ (f m) = sampleTime_ m) -> keepsClock (modifyThis f : M World unit).
Proof. intros Hf s. apply Hf. Qed.

Lemma keepsClock_callSetProperty id scope element data :
  keepsClock (callSetProperty AT id scope element data).
Proof.
  apply keepsClock_bind; [apply keepsClock_getThis|]. intros me. apply keepsClock_perform.
Qed.

Lemma keepsClock_callSetParameter id scope element value offset :
  keepsClock (callSetParameter AT id scope element value offset).
Proof.
  apply keepsClock_bind; [apply keepsClock_getThis|]. intros me. apply keepsClock_perform.
Qed.

Lemma keepsClock_setChannelVolumes scope todo : forall i,
  keepsClock (setChannelVolumes AT scope todo i).
Proof.
  induction todo as [|todo IH]; intros i; cbn.
  - apply keepsClock_ret.
  - apply keepsClock_orReturn; [apply keepsClock_callSetParameter | apply IH].
Qed.

Lemma keepsClock_initialize inputASBD outputASBD :
  keepsClock (initialize AT inputASBD outputASBD).
Proof.
  unfold initialize, configureMixer, configureStreamFormats, callInstanceNew, callInitialize,
    callFindNext.
  repeat first
    [ apply keepsClock_ret
    | apply keepsClock_getThis
    | apply keepsClock_perform
    | apply keepsClock_callSetProperty
    | apply keepsClock_callSetParameter
    | apply keepsClock_setChannelVolumes
    | apply keepsClock_modifyThis; intros; reflexivity
    | apply keepsClock_orReturn
    | apply keepsClock_bind; [|intros ?]
    | case_decide ].
Qed.

Lemma keepsClock_uninitialize : keepsClock (uninitialize AT).
Proof.
  unfold uninitialize, callUninitialize, callInstanceDispose.
  repeat first
    [ apply keepsClock_ret
    | apply keepsClock_getThis
    | apply keepsClock_perform
    | apply keepsClock_orReturn
    | apply keepsClock_bind; [|intros ?] ].
Qed.

Lemma keepsClock_setCrossoverVolume i j volume :
  keepsClock (setCrossoverVolume AT i j volume).
Proof.
  unfold setCrossoverVolume.
  apply keepsClock_orReturn; [apply keepsClock_callSetParameter | apply keepsClock_ret].
Qed.

(** One operation: a successful [mix] adds its frame count to the clock,
    every other operation and every failed [mix] leaves the clock alone. *)
Lemma runOp_clock (op : Op) (s : Machine World) :
  let r := runOp AT op s in
  sampleTime_ (this r.2) =
    match op with
    | OpMix n _ _ =>
        if decide (r.1 = noErr) then f64_add (sampleTime_ (this s)) (f64_of_Z n)
        else sampleTime_ (this s)
    | _ => sampleTime_ (this s)
    end.
Proof.
  destruct op as [inputASBD outputASBD| |i j volume|n inputABL outputABL];
    cbv zeta; cbn [runOp].
  - apply keepsClock_initialize.
  - apply keepsClock_uninitialize.
  - apply keepsClock_setCrossoverVolume.
  - rewrite mix_run. cbn. repeat case_decide; done || congruence.
Qed.

Lemma framesRendered_nonneg ops : forall statuses,
  Forall opFramesValid ops -> 0 <= framesRendered ops statuses.
Proof.
  induction ops as [|op ops IH]; intros statuses Hvalid; [done|].
  apply Forall_cons in Hvalid as [Hop Hvalid].
  destruct statuses as [|status statuses]; [done|]. cbn.
  specialize (IH statuses Hvalid).
  destruct op; try lia. case_decide; [|lia]. destruct Hop. lia.
Qed.

(** From a clock that holds the whole number [c], a sequence of operations
    leads to the clock [c] plus the frames rendered, as long as that stays
    within 2^53. *)
Lemma runOps_clock (ops : list Op) : forall (s : Machine World) (c : Z),
  Forall opFramesValid ops ->
  0 <= c ->
  sampleTime_ (this s) = f64_of_Z c ->
  let r := runOps AT ops s in
  c + framesRendered ops r.1 <= 2 ^ 53 ->
  sampleTime_ (this r.2) = f64_of_Z (c + framesRendered ops r.1).
Proof.
  induction ops as [|op ops IH]; intros s c Hvalid Hc Hclock; cbn.
  - intros _. by rewrite Z.add_0_r.
  - apply Forall_cons in Hvalid as [Hop Hvalid].
    unfold bind. pose proof (runOp_clock op s) as Hstep. cbv zeta in Hstep.
    destruct (runOp AT op s) as [status s1]. cbn in Hstep.
    specialize (IH s1).
    destruct (runOps AT ops s1) as [statuses s2] eqn:Hrest. cbn.
    pose proof (framesRendered_nonneg ops statuses Hvalid) as Hrest0.
    intros Hsum. cbn in IH.
    destruct op as [?| |?|n inputABL outputABL].
    + rewrite Z.add_0_l in *. apply IH; try done. congruence.
    + rewrite Z.add_0_l in *. apply IH; try done. congruence.
    + rewrite Z.add_0_l in *. apply IH; try done. congruence.
    + destruct Hop as [Hn0 Hn32]. case_decide as Hstatus.
      * rewrite Z.add_assoc. apply IH; try done; try lia.
        rewrite Hstep, Hclock. apply f64_add_exact; lia.
      * rewrite Z.add_0_l in *. apply IH; try done. congruence.
Qed.

Lemma runOp_clockValue (op : Op) (s : Machine World) :
  opFramesValid op -> clockValue (sampleTime_ (this s)) ->
  clockValue (sampleTime_ (this (runOp AT op s).2)) /\
  f64_le (sampleTime_ (this s)) (sampleTime_ (this (runOp AT op s).2)).
Proof.
  intros Hop Hclock. rewrite runOp_clock.
  destruct op as [?| |?|n inputABL outputABL];
    try (split; [done | by apply clockValue_le_refl]).
  case_decide; [|split; [done | by apply clockValue_le_refl]].
  apply f64_add_monotone; [done|]. destruct Hop. lia.
Qed.

Lemma runOps_clockValue (ops : list Op) : forall (s : Machine World),
  Forall opFramesValid ops -> clockValue (sampleTime_ (this s)) ->
  clockValue (sampleTime_ (this (runOps AT ops s).2)).
Proof.
  induction ops as [|op ops IH]; intros s Hvalid Hclock; [done|].
  apply Forall_cons in Hvalid as [Hop Hvalid]. cbn. unfold bind.
  pose proof (runOp_clockValue op s Hop Hclock) as [Hstep _].
  destruct (runOp AT op s) as [status s1]. cbn in Hstep.
  specialize (IH s1 Hvalid Hstep).
  destruct (runOps AT ops s1) as [statuses s2]. done.
Qed.

Lemma runOps_app (ops1 ops2 : list Op) (s : Machine World) :
  runOps AT (ops1 ++ ops2) s =
  let r1 := runOps AT ops1 s in
  let r2 := runOps AT ops2 r1.2 in
  (r1.1 ++ r2.1, r2.2).
Proof.
  revert s. induction ops1 as [|op ops1 IH]; intros s; cbn.
  - by destruct (runOps AT ops2 s).
  - unfold bind. destruct (runOp AT op s) as [status s1]. rewrite IH. cbn.
    destruct (runOps AT ops1 s1) as [statuses1 s2]. cbn.
    by destruct (runOps AT ops2 s2).
Qed.

(** C5 (as amended).  The clock of a new mixer is zero.  After any sequence
    of operations on it, the clock is the sum of the frame counts of the
    [mix] calls that returned [noErr], exactly, as long as that sum is at
    most 2^53.  At any point, an operation never lowers the clock, and an
    operation other than a successful [mix] leaves it as it is. *)
Theorem sample_clock_additive_up_to_2p53
    (raw : SystemAudioMixer) (w : World) (mem : Memory) (ops : list Op) :
  Forall opFramesValid ops ->
  let s0 := {| this := SystemAudioMixer_new raw; world := w; memory := mem; calls := [] |} in
  let r := runOps AT ops s0 in
  f64_to_Z (sampleTime_ (this s0)) = Some 0 /\
  (framesRendered ops r.1 <= 2 ^ 53 ->
     f64_to_Z (sampleTime_ (this r.2)) = Some (framesRendered ops r.1)) /\
  (forall op, opFramesValid op ->
     f64_le (sampleTime_ (this r.2)) (sampleTime_ (this (runOp AT op r.2).2))) /\
  (forall op,
     (forall n inputABL outputABL,
        op = OpMix n inputABL outputABL -> (runOp AT op r.2).1 <> noErr) ->
     sampleTime_ (this (runOp AT op r.2).2) = sampleTime_ (this r.2)).
Proof.
  intros Hvalid s0 r.
  split; [done|]. split; [|split].
  - intros Hsum.
    pose proof (runOps_clock ops s0 0 Hvalid ltac:(lia) eq_refl) as Hclock.
    cbv zeta in Hclock. fold r in Hclock. rewrite Z.add_0_l in Hclock.
    rewrite Hclock by lia. apply f64_to_Z_of_Z.
    pose proof (framesRendered_nonneg ops r.1 Hvalid). lia.
  - intros op Hop. apply runOp_clockValue; [done|].
    apply runOps_clockValue; [done | by left].
  - intros op Hfail. rewrite runOp_clock.
    destruct op as [?| |?|n inputABL outputABL]; try done.
    rewrite decide_False; [done|]. by eapply Hfail.
Qed.
End Clock.

Lemma sample_clock_additive_up_to_2p53_witness :
  let r := runOps testDouble
             [OpInitialize (pcmFormat 2) (pcmFormat 4);
              OpSetCrossoverVolume 0 0 f32_one;
              OpMix 512 0x1000 0x2000;
              OpMix 512 0x1000 0x3000;
              OpMix 256 0x1000 0x2000]
             (freshMachine obligingDouble) in
  r.1 = [noErr; noErr; noErr; kAudio_ParamError; noErr] /\
  f64_to_Z (sampleTime_ (this r.2)) = Some 768.
Proof.
  cbv zeta. split; [vm_compute; reflexivity|].
  destruct (sample_clock_additive_up_to_2p53 testDouble rawMixer obligingDouble sampleMemory
              [OpInitialize (pcmFormat 2) (pcmFormat 4);
               OpSetCrossoverVolume 0 0 f32_one;
               OpMix 512 0x1000 0x2000;
               OpMix 512 0x1000 0x3000;
               OpMix 256 0x1000 0x2000])
    as (_ & Hsum & _).
  - repeat constructor; unfold is_UInt32; lia.
  - unfold freshMachine. rewrite Hsum; [vm_compute; reflexivity | vm_compute; discriminate].
Defined.

(** * Beyond 2^53 the clock rounds *)

Section Rounding.

(** On the obliging double, rendering from the list at 0x1000 into the list
    at 0x2000 always succeeds and leaves the output aliased. *)
Lemma mixRender_obliging me log n mem :
  mem = sampleMemory \/ mem = aliasedMemory ->
  mixRender testDouble n 0x1000 0x2000
    {| this := me; world := obligingDouble; memory := mem; calls := log |}
  = (noErr, obligingDouble, aliasedMemory).
Proof. intros [-> | ->]; vm_compute; reflexivity. Qed.

Lemma mix_obliging n (s : Machine Double) :
  obliging s ->
  let r := mix testDouble n 0x1000 0x2000 s in
  r.1 = noErr /\ obliging r.2 /\
  sampleTime_ (this r.2) = f64_add (sampleTime_ (this s)) (f64_of_Z n).
Proof.
  intros [Hw Hmem]. destruct s as [me w mem log]. cbn in Hw, Hmem. subst w.
  cbv zeta. rewrite mix_run. rewrite mixRender_obliging by done. cbn.
  split; [done|]. split; [|done]. split; [done | by right].
Qed.

Lemma replicate_mix_obliging n (k : nat) : forall (s : Machine Double) (c : Z),
  obliging s -> is_UInt32 n -> 0 <= c -> c + Z.of_nat k * n <= 2 ^ 53 ->
  sampleTime_ (this s) = f64_of_Z c ->
  let r := runOps testDouble (replicate k (OpMix n 0x1000 0x2000)) s in
  r.1 = replicate k noErr /\ obliging r.2 /\
  sampleTime_ (this r.2) = f64_of_Z (c + Z.of_nat k * n).
Proof.
  induction k as [|k IH]; intros s c Hs Hn Hc Hsum Hclock.
  - cbn. split; [done|]. split; [done|]. rewrite Hclock. f_equal. lia.
  - cbn [replicate runOps runOp]. unfold bind.
    destruct (mix_obliging n s Hs) as (Hstatus & Hs1 & Hclock1).
    destruct (mix testDouble n 0x1000 0x2000 s) as [status s1]. cbn in Hstatus, Hs1, Hclock1.
    subst status. destruct Hn as [Hn0 Hn32].
    rewrite Hclock, f64_add_exact in Hclock1 by nia.
    destruct (IH s1 (c + n) Hs1 ltac:(done) ltac:(lia) ltac:(nia) Hclock1)
      as (Hstatuses & Hs2 & Hclock2).
    destruct (runOps testDouble (replicate k (OpMix n 0x1000 0x2000)) s1) as [statuses s2].
    cbn in *. subst statuses. split; [done|]. split; [done|].
    rewrite Hclock2. f_equal. lia.
Qed.

Lemma framesRendered_replicate n inputABL outputABL (k : nat) :
  framesRendered (replicate k (OpMix n inputABL outputABL)) (replicate k noErr)
  = Z.of_nat k * n.
Proof.
  induction k as [|k IH]; [done|].
  cbn [replicate framesRendered]. rewrite IH, decide_True by done. lia.
Qed.

Lemma framesRendered_app ops1 : forall statuses1 ops2 statuses2,
  length ops1 = length statuses1 ->
  framesRendered (ops1 ++ ops2) (statuses1 ++ statuses2)
  = framesRendered ops1 statuses1 + framesRendered ops2 statuses2.
Proof.
  induction ops1 as [|op ops1 IH]; intros [|status statuses1] ops2 statuses2 Hlen;
    try done.
  cbn [app framesRendered]. rewrite IH by (cbn in Hlen; lia). lia.
Qed.

Lemma exactCalls_Z : Z.of_nat exactCalls = 4194304.
Proof. unfold exactCalls. by rewrite Z2Nat.id. Qed.

(** C5 as it was stated does not hold.  2^22 consecutive successful [mix]
    calls of 2^31 frames each bring the clock to 2^53, exactly.  Two more
    successful calls of one frame each leave it there: 2^53 + 1 is no
    [double] and rounds back to 2^53.  The frame counts add up to
    2^53 + 2, which is a [double], but not the one the clock holds. *)
Lemma sample_clock_rounds_beyond_2p53 :
  let ops := replicate exactCalls (OpMix halfRangeFrames 0x1000 0x2000)
             ++ [OpMix 1 0x1000 0x2000; OpMix 1 0x1000 0x2000] in
  let r := runOps testDouble ops (freshMachine obligingDouble) in
  r.1 = replicate exactCalls noErr ++ [noErr; noErr] /\
  framesRendered ops r.1 = 9007199254740994 /\
  f64_to_Z (sampleTime_ (this r.2)) = Some 9007199254740992 /\
  f64_to_Z (sampleTime_ (this r.2)) <> Some (framesRendered ops r.1) /\
  sampleTime_ (this r.2) <> f64_of_Z (framesRendered ops r.1).
Proof.
  cbv zeta.
  assert (Hfresh : obliging (freshMachine obligingDouble)) by (split; [done | by left]).
  assert (Hhalf : is_UInt32 halfRangeFrames) by (unfold is_UInt32, halfRangeFrames; lia).
  assert (Hbelow : 0 + Z.of_nat exactCalls * halfRangeFrames <= 2 ^ 53).
  { rewrite exactCalls_Z. unfold halfRangeFrames. lia. }
  destruct (replicate_mix_obliging halfRangeFrames exactCalls (freshMachine obligingDouble) 0
              Hfresh Hhalf ltac:(lia) Hbelow eq_refl) as (Hstatuses & Hs1 & Hclock1).
  rewrite exactCalls_Z in Hclock1.
  rewrite runOps_app. cbv zeta.
  destruct (runOps testDouble (replicate exactCalls (OpMix halfRangeFrames 0x1000 0x2000))
              (freshMachine obligingDouble)) as [statuses s1].
  cbn [fst snd] in Hstatuses, Hs1, Hclock1 |- *. subst statuses.
  cbn [runOps runOp]. unfold bind.
  destruct (mix_obliging 1 s1 Hs1) as (Hstatus2 & Hs2 & Hclock2).
  destruct (mix testDouble 1 0x1000 0x2000 s1) as [status2 s2].
  cbn [fst snd] in Hstatus2, Hs2, Hclock2 |- *. subst status2.
  destruct (mix_obliging 1 s2 Hs2) as (Hstatus3 & _ & Hclock3).
  destruct (mix testDouble 1 0x1000 0x2000 s2) as [status3 s3].
  cbn [fst snd ret] in Hstatus3, Hclock3 |- *. subst status3.
  rewrite Hclock2, Hclock1 in Hclock3.
  assert (Hframes :
    framesRendered
      (replicate exactCalls (OpMix halfRangeFrames 0x1000 0x2000)
       ++ [OpMix 1 0x1000 0x2000; OpMix 1 0x1000 0x2000])
      (replicate exactCalls noErr ++ [noErr; noErr]) = 9007199254740994).
  { rewrite framesRendered_app by (by rewrite !length_replicate).
    rewrite framesRendered_replicate, exactCalls_Z. reflexivity. }
  assert (Hclock : sampleTime_ (this s3) = f64_of_Z 9007199254740992).
  { rewrite Hclock3. vm_compute. reflexivity. }
  split; [done|]. split; [done|]. rewrite Hframes, Hclock.
  split; [vm_compute; reflexivity|]. split; vm_compute; discriminate.
Qed.

(** C2 as it was stated does not hold: a successful [mix] does not always
    advance the clock by the frame count.  On an initialised mixer, 2^22
    successful [mix] calls of 2^31 frames each bring the clock to 2^53; the
    next [mix] of one frame returns [noErr] and leaves the clock where it
    was, since 2^53 + 1 is no [double] and the sum rounds back to 2^53. *)
Lemma mix_succeeds_without_advancing :
  let ready := initialize testDouble (pcmFormat 2) (pcmFormat 2)
                 (freshMachine obligingDouble) in
  let filled := runOps testDouble
                  (replicate exactCalls (OpMix halfRangeFrames 0x1000 0x2000)) ready.2 in
  let r := mix testDouble 1 0x1000 0x2000 filled.2 in
  ready.1 = noErr /\
  filled.1 = replicate exactCalls noErr /\
  f64_to_Z (sampleTime_ (this filled.2)) = Some 9007199254740992 /\
  r.1 = noErr /\
  sampleTime_ (this r.2) = sampleTime_ (this filled.2) /\
  f64_to_Z (sampleTime_ (this r.2)) <> Some (9007199254740992 + 1).
Proof.
  cbv zeta.
  set (ready := initialize testDouble (pcmFormat 2) (pcmFormat 2)
                  (freshMachine obligingDouble)).
  assert (Hstatus : ready.1 = noErr) by (vm_compute; reflexivity).
  assert (Hready : obliging ready.2) by (split; [vm_compute; reflexivity | by left]).
  assert (Hzero : sampleTime_ (this ready.2) = f64_of_Z 0) by (vm_compute; reflexivity).
  assert (Hhalf : is_UInt32 halfRangeFrames) by (unfold is_UInt32, halfRangeFrames; lia).
  assert (Hbelow : 0 + Z.of_nat exactCalls * halfRangeFrames <= 2 ^ 53).
  { rewrite exactCalls_Z. unfold halfRangeFrames. lia. }
  destruct (replicate_mix_obliging halfRangeFrames exactCalls ready.2 0
              Hready Hhalf ltac:(lia) Hbelow Hzero) as (Hstatuses & Hfilled & Hclock).
  rewrite exactCalls_Z in Hclock.
  destruct (runOps testDouble (replicate exactCalls (OpMix halfRangeFrames 0x1000 0x2000))
              ready.2) as [statuses filled].
  cbn [fst snd] in Hstatuses, Hfilled, Hclock |- *.
  destruct (mix_obliging 1 filled Hfilled) as (Hok & _ & Hnext).
  destruct (mix testDouble 1 0x1000 0x2000 filled) as [status s'].
  cbn [fst snd] in Hok, Hnext |- *.
  split; [done|]. split; [done|]. rewrite Hnext, Hclock.
  split; [vm_compute; reflexivity|]. split; [done|].
  split; [vm_compute; reflexivity|]. vm_compute. discriminate.
Qed.
End Rounding.

(** * Crosspoint elements *)

Section Crosspoints.

Lemma to_UInt32_range z : is_UInt32 (to_UInt32 z).
Proof. unfold is_UInt32, to_UInt32. apply Z.mod_pos_bound. lia. Qed.

Lemma to_UInt32_land z : to_UInt32 z = Z.land z (Z.ones 32).
Proof. unfold to_UInt32. by rewrite Z.land_ones. Qed.

Lemma to_UInt32_to_SInt32 z : to_UInt32 (to_SInt32 z) = to_UInt32 z.
Proof.
  unfold to_UInt32, to_SInt32.
  rewrite Zminus_mod_idemp_l. f_equal. lia.
Qed.

(** The low 32 bits of an "or" are the "or" of the low 32 bits. *)
Lemma to_UInt32_lor a b : to_UInt32 (Z.lor a b) = Z.lor (to_UInt32 a) (to_UInt32 b).
Proof. rewrite !to_UInt32_land. apply Z.land_lor_distr_l. Qed.

(** The element without the intermediate wrap of the shift. *)
Lemma crosspointElement_unwrapped i j :
  crosspointElement i j = to_UInt32 (Z.lor (Z.shiftl i 16) j).
Proof.
  unfold crosspointElement.
  by rewrite to_UInt32_lor, to_UInt32_to_SInt32, <- to_UInt32_lor.
Qed.

Lemma land_shiftl_low a b n :
  0 <= n -> 0 <= b < 2 ^ n -> Z.land (Z.shiftl a n) b = 0.
Proof.
  intros Hn Hb. apply Z.bits_inj'. intros m Hm.
  rewrite Z.land_spec, Z.bits_0.
  destruct (Z.lt_ge_cases m n).
  - by rewrite Z.shiftl_spec_low.
  - rewrite <- (Z.mod_small b (2 ^ n)) by done.
    rewrite Z.mod_pow2_bits_high by lia. apply andb_false_r.
Qed.

Lemma lor_shiftl_low a b n :
  0 <= n -> 0 <= b < 2 ^ n -> Z.lor (Z.shiftl a n) b = a * 2 ^ n + b.
Proof.
  intros Hn Hb. pose proof (land_shiftl_low a b n Hn Hb) as Hland.
  rewrite <- Z.lxor_lor by done. rewrite <- Z.add_nocarry_lxor by done.
  by rewrite Z.shiftl_mul_pow2.
Qed.

(** For an even input index, output index [k + 65536] is input index
    [i + 1], output index [k]. *)
Lemma crosspointElement_carry i k :
  Z.even i = true -> 0 <= k < 65536 ->
  crosspointElement i (k + 65536) = crosspointElement (i + 1) k.
Proof.
  intros Heven Hk. rewrite !crosspointElement_unwrapped. f_equal.
  apply Z.even_spec in Heven as [h ->].
  rewrite (lor_shiftl_low (2 * h + 1) k 16) by lia.
  replace (Z.shiftl (2 * h) 16) with (Z.shiftl h 17).
  - rewrite (lor_shiftl_low h (k + 65536) 17) by lia. lia.
  - rewrite !Z.shiftl_mul_pow2 by lia. lia.
Qed.

(** Every element is the crosspoint of a pair of 16-bit indices. *)
Lemma crosspointElement_split (e : Z) :
  is_UInt32 e -> crosspointElement (e / 65536) (e mod 65536) = e.
Proof.
  intros [He0 He32]. rewrite crosspointElement_unwrapped.
  rewrite (lor_shiftl_low (e / 65536) (e mod 65536) 16).
  - change (2 ^ 16) with 65536. rewrite Z.mul_comm, <- Z.div_mod by lia.
    unfold to_UInt32. by rewrite Z.mod_small.
  - lia.
  - apply Z.mod_pos_bound. lia.
Qed.
End Crosspoints.

(** C9 (as amended).  [setCrossoverVolume] checks no range: whatever the
    indices, it makes one parameter-set call, on the global scope, for the
    element [(i << 16) | j], and returns the status of that call.  Distinct
    index pairs can therefore address one element: for every even [i] and
    every [k] with [0 <= k < 65536], the call with indices [(i, k + 65536)]
    is the call with indices [(i + 1, k)].  Negative indices fall into the
    same element space: every element is in the unsigned 32-bit range and
    is also the element of a pair of indices in [0, 65536), and an output
    index of -1 always addresses 0xFFFFFFFF, the element of the global
    volume. *)
Theorem setCrossoverVolume_elements_alias {World} (AT : AudioToolbox World) :
  (forall i j volume (s : Machine World),
     let r := setCrossoverVolume AT i j volume s in
     let unit := mixerUnit_ (this s) in
     let element := crosspointElement i j in
     calls r.2 = calls s ++ [(CallSetParameter unit kMatrixMixerParam_Volume
                                kAudioUnitScope_Global element volume 0, ReplyStatus r.1)] /\
     r.1 = (AudioUnitSetParameter AT unit kMatrixMixerParam_Volume kAudioUnitScope_Global
              element volume 0 (world s)).1) /\
  (forall i k volume, Z.even i = true -> 0 <= k < 65536 ->
     crosspointElement i (k + 65536) = crosspointElement (i + 1) k /\
     setCrossoverVolume AT i (k + 65536) volume = setCrossoverVolume AT (i + 1) k volume) /\
  (forall i j,
     is_UInt32 (crosspointElement i j) /\
     exists i' j', 0 <= i' < 65536 /\ 0 <= j' < 65536 /\
       crosspointElement i' j' = crosspointElement i j) /\
  (forall i, crosspointElement i (-1) = 0xFFFFFFFF).
Proof.
  split; [|split; [|split]].
  - intros i j volume s. cbv zeta.
    unfold setCrossoverVolume, orReturn, bind, callSetParameter, perform, getThis, ret. cbn.
    destruct (AudioUnitSetParameter AT _ _ _ _ _ _ _) as [status w]. cbn.
    case_decide as Hstatus; cbn; [done|].
    assert (status = noErr) as -> by (destruct (decide (noErr = status)); done). done.
  - intros i k volume Heven Hk.
    pose proof (crosspointElement_carry i k Heven Hk) as Heq.
    split; [done|]. unfold setCrossoverVolume. by rewrite Heq.
  - intros i j. pose proof (to_UInt32_range (Z.lor (to_SInt32 (Z.shiftl i 16)) j)) as He.
    fold (crosspointElement i j) in He. split; [done|].
    exists (crosspointElement i j / 65536), (crosspointElement i j mod 65536).
    destruct He as [He0 He32].
    split; [|split].
    + split; [apply Z.div_pos; lia | apply Z.div_lt_upper_bound; lia].
    + apply Z.mod_pos_bound. lia.
    + by apply crosspointElement_split.
  - intros i. rewrite crosspointElement_unwrapped, Z.lor_m1_r. reflexivity.
Qed.

Lemma setCrossoverVolume_elements_alias_witness :
  setCrossoverVolume testDouble 2 (7 + 65536) f32_one
  = setCrossoverVolume testDouble (2 + 1) 7 f32_one.
Proof.
  destruct (setCrossoverVolume_elements_alias testDouble) as (_ & Hcarry & _).
  apply (Hcarry 2 7 f32_one).
  - reflexivity.
  - lia.
Defined.

(** C9 as it was stated does not hold: with the odd input index 1, the
    indices (1, 65536) address element 65536 and the indices (2, 0) address
    element 131072, and the two calls differ. *)
Lemma setCrossoverVolume_odd_index_differs :
  crosspointElement 1 (0 + 65536) = 65536 /\
  crosspointElement (1 + 1) 0 = 131072 /\
  calls (setCrossoverVolume testDouble 1 (0 + 65536) f32_one (freshMachine obligingDouble)).2
  <> calls (setCrossoverVolume testDouble (1 + 1) 0 f32_one (freshMachine obligingDouble)).2.
Proof. vm_compute. repeat split; discriminate. Qed.

(** * AutoCFType *)

(** C10.  [release] returns the handle held and leaves the wrapper holding
    null, without releasing anything; afterwards neither the destructor nor
    a [reset] releases that handle, and a second [release] returns null.
    [get] returns the handle held and changes neither the wrapper nor what
    has been released. *)
Theorem AutoCFType_release_transfers_ownership
    (w : AutoCFType.t) (log : AutoCFType.Released) :
  let h := AutoCFType.type_ w in
  let r := AutoCFType.release w log in
  r.1.1 = h /\
  AutoCFType.type_ r.1.2 = nullptr /\
  r.2 = log /\
  AutoCFType.destroy r.1.2 r.2 = log /\
  (forall h', (AutoCFType.reset h' r.1.2 r.2).2 = log /\
              AutoCFType.type_ (AutoCFType.reset h' r.1.2 r.2).1 = h') /\
  AutoCFType.release r.1.2 r.2 = (nullptr, r.1.2, log) /\
  AutoCFType.get w log = (h, w, log).
Proof. by repeat split. Qed.

(** * Further properties of the crosspoint element *)

(** X1.  For indices that fit 16 bits the element is
    [65536 * inputChannelIndex + outputChannelIndex]: both indices can be
    read back from it, so two such pairs never share an element, and only
    the pair (65535, 65535) addresses 0xFFFFFFFF, the element of the global
    volume. *)
Theorem crosspointElement_in_range i j :
  0 <= i < 65536 -> 0 <= j < 65536 ->
  crosspointElement i j = 65536 * i + j /\
  crosspointElement i j / 65536 = i /\
  crosspointElement i j mod 65536 = j /\
  (forall i' j', 0 <= i' < 65536 -> 0 <= j' < 65536 ->
     crosspointElement i' j' = crosspointElement i j -> i' = i /\ j' = j) /\
  (crosspointElement i j = 0xFFFFFFFF -> i = 65535 /\ j = 65535).
Proof.
  intros Hi Hj.
  assert (Hval : forall a b, 0 <= a < 65536 -> 0 <= b < 65536 ->
             crosspointElement a b = 65536 * a + b).
  { intros a b Ha Hb. rewrite crosspointElement_unwrapped.
    rewrite (lor_shiftl_low a b 16) by lia. change (2 ^ 16) with 65536.
    unfold to_UInt32. rewrite Z.mod_small; lia. }
  rewrite (Hval i j) by done.
  split; [done|]. split; [|split; [|split]].
  - symmetry. apply Z.div_unique with (r := j); lia.
  - symmetry. apply Z.mod_unique with (q := i); lia.
  - intros i' j' Hi' Hj' Heq. rewrite (Hval i' j') in Heq by done. lia.
  - lia.
Qed.

Lemma crosspointElement_in_range_witness :
  crosspointElement 1 3 = 65539 /\
  (crosspointElement 1 3 = 0xFFFFFFFF -> 1 = 65535 /\ 3 = 65535).
Proof.
  destruct (crosspointElement_in_range 1 3) as (Hval & _ & _ & _ & Hglobal).
  - lia.
  - lia.
  - split; [exact Hval | exact Hglobal].
Defined.

(** * Crosspoint gains as a recording platform sees them *)

Section CrosspointGains.
Context {World : Type} (AT : AudioToolbox World).

(** [setCrossoverVolume] in one step. *)
Lemma setCrossoverVolume_run i j volume (s : Machine World) :
  let unit := mixerUnit_ (this s) in
  let reply := AudioUnitSetParameter AT unit kMatrixMixerParam_Volume kAudioUnitScope_Global
                 (crosspointElement i j) volume 0 (world s) in
  setCrossoverVolume AT i j volume s =
  (reply.1,
   {| this := this s; world := reply.2; memory := memory s;
      calls := calls s ++ [(CallSetParameter unit kMatrixMixerParam_Volume
                              kAudioUnitScope_Global (crosspointElement i j) volume 0,
                            ReplyStatus reply.1)] |}).
Proof.
  cbv zeta.
  unfold setCrossoverVolume, orReturn, bind, callSetParameter, perform, getThis, ret. cbn.
  destruct (AudioUnitSetParameter AT _ _ _ _ _ _ _) as [status w]. cbn.
  case_decide as Hstatus; cbn; [done|].
  by assert (status = noErr) as -> by (destruct (decide (noErr = status)); done).
Qed.

(** X2.  [setCrossoverVolume(i, j, g)] makes exactly one call, which sets
    the volume parameter of the element of [(i, j)] on the global scope to
    [g] at offset 0, and returns the status of that call.  When it succeeds,
    [g] is the recorded volume of that element, whatever was recorded
    before, and no other recorded volume changes; when it fails no recorded
    volume changes at all.  The mixer object and the memory are as before in
    both cases. *)
Theorem setCrossoverVolume_recorded i j volume (s : Machine World) :
  let unit := mixerUnit_ (this s) in
  let reply := AudioUnitSetParameter AT unit kMatrixMixerParam_Volume kAudioUnitScope_Global
                 (crosspointElement i j) volume 0 (world s) in
  let r := setCrossoverVolume AT i j volume s in
  r.1 = reply.1 /\
  world r.2 = reply.2 /\
  calls r.2 = calls s ++ [(CallSetParameter unit kMatrixMixerParam_Volume
                             kAudioUnitScope_Global (crosspointElement i j) volume 0,
                           ReplyStatus reply.1)] /\
  (r.1 = noErr ->
     recordedVolume (calls r.2) kAudioUnitScope_Global (crosspointElement i j)
     = Some volume) /\
  (forall scope element,
     scope <> kAudioUnitScope_Global \/ element <> crosspointElement i j ->
     recordedVolume (calls r.2) scope element = recordedVolume (calls s) scope element) /\
  (r.1 <> noErr ->
     forall scope element,
       recordedVolume (calls r.2) scope element = recordedVolume (calls s) scope element) /\
  this r.2 = this s /\ memory r.2 = memory s.
Proof.
  cbv zeta. rewrite setCrossoverVolume_run. cbn [fst snd calls this memory world].
  set (status := (AudioUnitSetParameter AT _ _ _ _ _ _ _).1).
  split; [done|]. split; [done|]. split; [done|].
  split; [|split; [|split; [|done]]].
  - intros Hok. rewrite recordedVolume_app. cbn.
    rewrite decide_True; [done|]. by repeat split.
  - intros scope element Hother. rewrite recordedVolume_app. cbn.
    rewrite decide_False; [done|]. intros (<- & <- & _). by destruct Hother.
  - intros Hbad scope element. rewrite recordedVolume_app. cbn.
    rewrite decide_False; [done|]. by intros (_ & _ & ?).
Qed.
End CrosspointGains.

Lemma setCrossoverVolume_recorded_witness :
  let first := setCrossoverVolume testDouble 1 3 f32_one (freshMachine obligingDouble) in
  let second := setCrossoverVolume testDouble 1 3 (S754_finite false 8388608 (-24)) first.2 in
  calls first.2 = [(CallSetParameter 0xdead kMatrixMixerParam_Volume kAudioUnitScope_Global
                      65539 f32_one 0, ReplyStatus noErr)] /\
  recordedVolume (calls first.2) kAudioUnitScope_Global (crosspointElement 1 3)
  = Some f32_one /\
  recordedVolume (calls second.2) kAudioUnitScope_Global (crosspointElement 1 3)
  = Some (S754_finite false 8388608 (-24)).
Proof.
  cbv zeta.
  destruct (setCrossoverVolume_recorded testDouble 1 3 f32_one (freshMachine obligingDouble))
    as (_ & _ & Hcalls & Hfirst & _).
  destruct (setCrossoverVolume_recorded testDouble 1 3 (S754_finite false 8388608 (-24))
              (setCrossoverVolume testDouble 1 3 f32_one (freshMachine obligingDouble)).2)
    as (_ & _ & _ & Hsecond & _).
  split; [rewrite Hcalls; vm_compute; reflexivity|]. split.
  - apply Hfirst. vm_compute. reflexivity.
  - apply Hsecond. vm_compute. reflexivity.
Defined.

(** * The configuration helpers *)

Section Configuration.
Context {World : Type} (AT : AudioToolbox World).

(** X3.  [configureMixer] asks for one input bus and then for one output
    bus.  When the first request fails its status is returned and the output
    scope is not configured; otherwise the status of the second request is
    returned.  The mixer object and the memory are never changed. *)
Theorem configureMixer_one_bus_each (s : Machine World) :
  let unit := mixerUnit_ (this s) in
  let r := configureMixer AT s in
  let input := AudioUnitSetProperty AT unit kAudioUnitProperty_BusCount
                 kAudioUnitScope_Input 0 (PropUInt32 1) (world s) in
  let output := AudioUnitSetProperty AT unit kAudioUnitProperty_BusCount
                  kAudioUnitScope_Output 0 (PropUInt32 1) input.2 in
  let inputCall := CallSetProperty unit kAudioUnitProperty_BusCount
                     kAudioUnitScope_Input 0 (PropUInt32 1) in
  let outputCall := CallSetProperty unit kAudioUnitProperty_BusCount
                      kAudioUnitScope_Output 0 (PropUInt32 1) in
  this r.2 = this s /\ memory r.2 = memory s /\
  (input.1 <> noErr ->
     r.1 = input.1 /\ world r.2 = input.2 /\
     calls r.2 = calls s ++ [(inputCall, ReplyStatus input.1)]) /\
  (input.1 = noErr ->
     r.1 = output.1 /\ world r.2 = output.2 /\
     calls r.2 = calls s ++ [(inputCall, ReplyStatus noErr);
                             (outputCall, ReplyStatus output.1)]).
Proof.
  cbv zeta. unfold configureMixer, orReturn, bind, callSetProperty, perform, getThis, ret.
  cbn.
  destruct (AudioUnitSetProperty AT (mixerUnit_ (this s)) kAudioUnitProperty_BusCount
              kAudioUnitScope_Input 0 (PropUInt32 1) (world s)) as [st1 w1]. cbn.
  case_decide as H1; cbn.
  - repeat split; try done; intros; congruence.
  - assert (st1 = noErr) as -> by (destruct (decide (noErr = st1)); done).
    destruct (AudioUnitSetProperty AT (mixerUnit_ (this s)) kAudioUnitProperty_BusCount
                kAudioUnitScope_Output 0 (PropUInt32 1) w1) as [st2 w2]. cbn.
    case_decide as H2; cbn.
    + repeat split; try done. by rewrite <- app_assoc.
    + assert (st2 = noErr) as -> by (destruct (decide (noErr = st2)); done).
      repeat split; try done. by rewrite <- app_assoc.
Qed.

(** X4.  [configureStreamFormats] records a channel count only after the
    unit has accepted the format it comes from.  When the input format is
    refused nothing is recorded and the output format is not applied.  When
    the input format is accepted and the output format is refused, the input
    channel count has been recorded and the output channel count has not.
    When both are accepted both counts are recorded and [noErr] is
    returned.  No other member of the mixer changes. *)
Theorem configureStreamFormats_records_accepted inputASBD outputASBD (s : Machine World) :
  let unit := mixerUnit_ (this s) in
  let r := configureStreamFormats AT inputASBD outputASBD s in
  let input := AudioUnitSetProperty AT unit kAudioUnitProperty_StreamFormat
                 kAudioUnitScope_Input 0 (PropStreamFormat inputASBD) (world s) in
  let output := AudioUnitSetProperty AT unit kAudioUnitProperty_StreamFormat
                  kAudioUnitScope_Output 0 (PropStreamFormat outputASBD) input.2 in
  let inputCall := CallSetProperty unit kAudioUnitProperty_StreamFormat
                     kAudioUnitScope_Input 0 (PropStreamFormat inputASBD) in
  let outputCall := CallSetProperty unit kAudioUnitProperty_StreamFormat
                      kAudioUnitScope_Output 0 (PropStreamFormat outputASBD) in
  (input.1 <> noErr ->
     r.1 = input.1 /\ this r.2 = this s /\
     calls r.2 = calls s ++ [(inputCall, ReplyStatus input.1)]) /\
  (input.1 = noErr -> output.1 <> noErr ->
     r.1 = output.1 /\
     this r.2 = set_mixerInputChannels_ (mChannelsPerFrame inputASBD) (this s) /\
     calls r.2 = calls s ++ [(inputCall, ReplyStatus noErr);
                             (outputCall, ReplyStatus output.1)]) /\
  (input.1 = noErr -> output.1 = noErr ->
     r.1 = noErr /\
     this r.2 = set_mixerOutputChannels_ (mChannelsPerFrame outputASBD)
                  (set_mixerInputChannels_ (mChannelsPerFrame inputASBD) (this s)) /\
     calls r.2 = calls s ++ [(inputCall, ReplyStatus noErr);
                             (outputCall, ReplyStatus noErr)]).
Proof.
  cbv zeta.
  unfold configureStreamFormats, orReturn, bind, callSetProperty, perform, getThis,
    modifyThis, ret. cbn.
  destruct (AudioUnitSetProperty AT (mixerUnit_ (this s)) kAudioUnitProperty_StreamFormat
              kAudioUnitScope_Input 0 (PropStreamFormat inputASBD) (world s)) as [st1 w1].
  cbn. case_decide as H1; cbn.
  - repeat split; try done; intros; congruence.
  - assert (st1 = noErr) as -> by (destruct (decide (noErr = st1)); done).
    destruct (AudioUnitSetProperty AT (mixerUnit_ (this s)) kAudioUnitProperty_StreamFormat
                kAudioUnitScope_Output 0 (PropStreamFormat outputASBD) w1) as [st2 w2].
    cbn. case_decide as H2; cbn.
    + repeat split; try done; try (by rewrite <- app_assoc); intros; congruence.
    + assert (st2 = noErr) as -> by (destruct (decide (noErr = st2)); done).
      repeat split; try done; by rewrite <- app_assoc.
Qed.
End Configuration.

Lemma configureMixer_one_bus_each_witness :
  let r := configureMixer testDouble (freshMachine (scriptedDouble 0xC0 [-10877])) in
  r.1 = -10877 /\
  calls r.2 = [(CallSetProperty 0xdead kAudioUnitProperty_BusCount kAudioUnitScope_Input 0
                  (PropUInt32 1), ReplyStatus (-10877))].
Proof.
  destruct (configureMixer_one_bus_each testDouble
              (freshMachine (scriptedDouble 0xC0 [-10877]))) as (_ & _ & Hfail & _).
  destruct Hfail as (Hstatus & _ & Hcalls); [vm_compute; discriminate|].
  split; [exact Hstatus | exact Hcalls].
Defined.

Lemma configureStreamFormats_records_accepted_witness :
  let r := configureStreamFormats testDouble (pcmFormat 2) (pcmFormat 4)
             (freshMachine (scriptedDouble 0xC0 [noErr; -10868])) in
  r.1 = -10868 /\
  mixerInputChannels_ (this r.2) = 2 /\
  mixerOutputChannels_ (this r.2) = 0xcafe.
Proof.
  destruct (configureStreamFormats_records_accepted testDouble (pcmFormat 2) (pcmFormat 4)
              (freshMachine (scriptedDouble 0xC0 [noErr; -10868]))) as (_ & Hpartial & _).
  destruct Hpartial as (Hstatus & Hthis & _);
    [vm_compute; reflexivity | vm_compute; discriminate |].
  split; [exact Hstatus|]. rewrite Hthis. split; reflexivity.
Defined.

(** * What the operations leave alone *)

Section Frames.
Context {World X : Type} (AT : AudioToolbox World) (g : SystemAudioMixer -> Memory -> X).

Lemma keeps_ret {A} (a : A) : keeps g (ret a : M World A).
Proof. done. Qed.

Lemma keeps_bind {A B} (c : M World A) (k : A -> M World B) :
  keeps g c -> (forall a, keeps g (k a)) -> keeps g (bind c k).
Proof.
  intros Hc Hk s. unfold bind. specialize (Hc s).
  destruct (c s) as [a s1]. cbn in *. by rewrite Hk.
Qed.

Lemma keeps_orReturn (c k : M World OSStatus) :
  keeps g c -> keeps g k -> keeps g (try! c in k).
Proof.
  intros Hc Hk. apply keeps_bind; [done|].
  intros status. case_decide; [apply keeps_ret | done].
Qed.

Lemma keeps_perform {A} call (reply : A -> Reply) (f : World -> A * World) :
  keeps g (perform call reply f).
Proof. intros s. unfold perform. by destruct (f (world s)). Qed.

Lemma keeps_getThis : keeps g (getThis : M World SystemAudioMixer).
Proof. done. Qed.

Lemma keeps_modifyThis (h : SystemAudioMixer -> SystemAudioMixer) :
  (forall m mem, g (h m) mem = g m mem) -> keeps g (modifyThis h : M World unit).
Proof. intros Hh s. apply Hh. Qed.

Lemma keeps_callSetProperty id scope element data :
  keeps g (callSetProperty AT id scope element data).
Proof. apply keeps_bind; [apply keeps_getThis|]. intros me. apply keeps_perform. Qed.

Lemma keeps_callSetParameter id scope element value offset :
  keeps g (callSetParameter AT id scope element value offset).
Proof. apply keeps_bind; [apply keeps_getThis|]. intros me. apply keeps_perform. Qed.

Lemma keeps_setChannelVolumes scope todo : forall i,
  keeps g (setChannelVolumes AT scope todo i).
Proof.
  induction todo as [|todo IH]; intros i; cbn.
  - apply keeps_ret.
  - apply keeps_orReturn; [apply keeps_callSetParameter | apply IH].
Qed.

Ltac keeps_steps :=
  repeat first
    [ apply keeps_ret
    | apply keeps_getThis
    | apply keeps_perform
    | apply keeps_callSetProperty
    | apply keeps_callSetParameter
    | apply keeps_setChannelVolumes
    | apply keeps_modifyThis; assumption
    | apply keeps_orReturn
    | apply keeps_bind; [|intros ?]
    | case_decide ].

Lemma keeps_uninitialize : keeps g (uninitialize AT).
Proof. unfold uninitialize, callUninitialize, callInstanceDispose. keeps_steps. Qed.

Lemma keeps_setCrossoverVolume i j volume : keeps g (setCrossoverVolume AT i j volume).
Proof. unfold setCrossoverVolume. keeps_steps. Qed.

Section ChannelCounts.
Hypothesis Hinput : forall v m mem, g (set_mixerInputChannels_ v m) mem = g m mem.
Hypothesis Houtput : forall v m mem, g (set_mixerOutputChannels_ v m) mem = g m mem.

(** What [initialize] does once the instance exists. *)
Lemma keeps_configuration inputASBD outputASBD :
  keeps g
    (try! configureMixer AT in
     try! configureStreamFormats AT inputASBD outputASBD in
     try! callSetProperty AT kAudioUnitProperty_ShouldAllocateBuffer kAudioUnitScope_Input 0
            (PropUInt32 0) in
     try! callSetProperty AT kAudioUnitProperty_SetRenderCallback kAudioUnitScope_Global 0
            PropRenderCallback in
     try! callInitialize AT in
     try! callSetParameter AT kMatrixMixerParam_Volume kAudioUnitScope_Global 0xFFFFFFFF
            f32_one 0 in
     let! me := getThis in
     try! setChannelVolumes AT kAudioUnitScope_Input (Z.to_nat (mixerInputChannels_ me)) 0 in
     try! setChannelVolumes AT kAudioUnitScope_Output (Z.to_nat (mixerOutputChannels_ me)) 0 in
     ret noErr).
Proof using Hinput Houtput.
  pose proof (Hinput (mChannelsPerFrame inputASBD)) as Hin.
  pose proof (Houtput (mChannelsPerFrame outputASBD)) as Hout.
  unfold configureMixer, configureStreamFormats, callInitialize. keeps_steps.
Qed.

Lemma keeps_initialize inputASBD outputASBD :
  (forall v m mem, g (set_mixerUnit_ v m) mem = g m mem) ->
  keeps g (initialize AT inputASBD outputASBD).
Proof using Hinput Houtput.
  intros Hunit. unfold initialize.
  apply keeps_bind; [apply keeps_perform|]. intros comp.
  case_decide; [apply keeps_ret|].
  apply keeps_orReturn; [|apply keeps_configuration].
  unfold callInstanceNew.
  apply keeps_bind; [apply keeps_getThis|]. intros me.
  apply keeps_bind; [apply keeps_perform|]. intros r.
  apply keeps_bind; [|intros; apply keeps_ret].
  apply keeps_modifyThis. apply Hunit.
Qed.
End ChannelCounts.
End Frames.

(** * The instance that [initialize] creates *)

Section Instance.
Context {World : Type} (AT : AudioToolbox World).

(** Where the unit handle comes from. *)
Lemma initialize_instance inputASBD outputASBD (s : Machine World) :
  let r := initialize AT inputASBD outputASBD s in
  let found := AudioComponentFindNext AT nullptr mixerDesc (world s) in
  let created := AudioComponentInstanceNew AT found.1 (mixerUnit_ (this s)) found.2 in
  (found.1 = nullptr -> r.1 = kAudioUnitErr_ExtensionNotFound /\ this r.2 = this s) /\
  (found.1 <> nullptr ->
     mixerUnit_ (this r.2) = created.1.2 /\
     (created.1.1 <> noErr -> r.1 = created.1.1)).
Proof.
  cbv zeta.
  destruct (initialize AT inputASBD outputASBD s) as [result s'] eqn:Hrun. cbn [fst snd].
  unfold initialize in Hrun.
  set (K := (try! configureMixer AT in _)) in Hrun.
  assert (HK : keeps (fun m (_ : Memory) => mixerUnit_ m) K).
  { subst K. by apply keeps_configuration. }
  unfold bind at 1 in Hrun. unfold callFindNext, perform in Hrun.
  destruct (AudioComponentFindNext AT nullptr mixerDesc (world s)) as [comp w1].
  cbn [fst snd].
  case_decide as Hcomp.
  { injection Hrun as <- <-. by split. }
  split; [done|]. intros _.
  unfold orReturn at 1 in Hrun. unfold bind at 1 in Hrun. unfold callInstanceNew in Hrun.
  unfold bind at 1 in Hrun. cbn [getThis this] in Hrun.
  unfold bind at 1 in Hrun. unfold perform at 1 in Hrun.
  cbn [world this memory calls] in Hrun.
  destruct (AudioComponentInstanceNew AT comp (mixerUnit_ (this s)) w1)
    as [[status unit] w2].
  cbn [fst snd] in Hrun |- *. unfold bind at 1 in Hrun. unfold modifyThis at 1 in Hrun.
  cbn [this world memory calls ret] in Hrun.
  case_decide as Hstatus.
  { injection Hrun as <- <-. by split. }
  assert (status = noErr) as -> by (destruct (decide (noErr = status)); done).
  split; [|done].
  match type of Hrun with K ?s2 = _ => pose proof (HK s2) as Hunit end.
  rewrite Hrun in Hunit. exact Hunit.
Qed.

Lemma initializePlan_no_teardown comp unit inputASBD outputASBD call :
  call ∈ initializePlan comp unit inputASBD outputASBD -> ~ isTeardown call.
Proof.
  unfold initializePlan, volumeCalls.
  rewrite !elem_of_app, !elem_of_cons, elem_of_nil, !list_elem_of_fmap.
  intros [H | [(i & -> & _) | (i & -> & _)]]; [|by intros []..].
  repeat (destruct H as [-> | H]; [by intros [] |]). done.
Qed.

(** X5.  [initialize] never deactivates or disposes of a unit: when a step
    fails after the instance has been created, the instance stays
    allocated.  Once discovery has found a component, the handle that
    [AudioComponentInstanceNew] wrote is the one [mixerUnit_] holds when
    [initialize] returns, whatever the outcome. *)
Theorem initialize_keeps_instance inputASBD outputASBD (s : Machine World) :
  is_UInt32 (mChannelsPerFrame inputASBD) -> is_UInt32 (mChannelsPerFrame outputASBD) ->
  let r := initialize AT inputASBD outputASBD s in
  let found := AudioComponentFindNext AT nullptr mixerDesc (world s) in
  let created := AudioComponentInstanceNew AT found.1 (mixerUnit_ (this s)) found.2 in
  (exists evs,
     calls r.2 = calls s ++ evs /\
     forall call, call ∈ fst <$> evs -> ~ isTeardown call) /\
  (found.1 <> nullptr -> mixerUnit_ (this r.2) = created.1.2).
Proof.
  intros Hin Hout r found created. split.
  - destruct (initialize_run AT inputASBD outputASBD s Hin Hout)
      as (evs & Hlog & _ & [rest Hplan] & _).
    exists evs. split; [done|]. intros call Hcall.
    apply (initializePlan_no_teardown (foundComponent evs) (mixerUnit_ (this r.2))
             inputASBD outputASBD).
    fold r in Hplan. rewrite Hplan. apply elem_of_app. by left.
  - intros Hfound.
    by destruct (initialize_instance inputASBD outputASBD s) as [_ [Hunit _]].
Qed.

Lemma followsPlan_uninitialize (s : Machine World) unit :
  mixerUnit_ (this s) = unit ->
  followsPlan (uninitialize AT) s [CallUninitialize unit; CallInstanceDispose unit]
    (fun m => m = this s).
Proof.
  intros Hunit. unfold uninitialize.
  eapply (followsPlan_try _ _ _ [_] [_]); [by apply followsPlan_callUninitialize|].
  intros _ Hthis. cbv beta in Hthis.
  eapply (followsPlan_try _ _ _ [_] []).
  { apply followsPlan_callInstanceDispose. by rewrite Hthis. }
  intros _ Hthis'. cbv beta in Hthis'. apply followsPlan_ret. congruence.
Qed.

(** X6.  After a successful [initialize], [uninitialize] addresses the very
    unit that [initialize] created: it deactivates that unit and then
    disposes of it, stopping at the first failure.  It does not clear
    [mixerUnit_], which still holds the handle afterwards. *)
Theorem uninitialize_addresses_created_unit inputASBD outputASBD (s : Machine World) :
  let r := initialize AT inputASBD outputASBD s in
  let found := AudioComponentFindNext AT nullptr mixerDesc (world s) in
  let unit := (AudioComponentInstanceNew AT found.1 (mixerUnit_ (this s)) found.2).1.2 in
  r.1 = noErr ->
  let t := uninitialize AT r.2 in
  exists evs,
    calls t.2 = calls r.2 ++ evs /\
    stopsAtFirstFailure t.1 evs /\
    (fst <$> evs) `prefix_of` [CallUninitialize unit; CallInstanceDispose unit] /\
    (t.1 = noErr -> fst <$> evs = [CallUninitialize unit; CallInstanceDispose unit]) /\
    mixerUnit_ (this t.2) = unit.
Proof.
  intros r found unit Hok t.
  destruct (initialize_instance inputASBD outputASBD s) as [Hnull Hsome].
  fold r found in Hnull, Hsome.
  assert (Hfound : found.1 <> nullptr).
  { intros Hn. destruct (Hnull Hn) as [Hstatus _]. rewrite Hok in Hstatus. done. }
  destruct (Hsome Hfound) as [Hunit _]. fold unit in Hunit.
  destruct (followsPlan_uninitialize r.2 unit Hunit)
    as (evs & Hlog & Hstop & Hpre & Hdone & _ & Hid & _).
  exists evs. split; [done|]. split; [done|]. split; [done|]. split.
  - intros Ht. by destruct (Hdone Ht).
  - subst t. by rewrite Hid.
Qed.
End Instance.

Lemma initialize_keeps_instance_witness :
  let r := initialize testDouble (pcmFormat 2) (pcmFormat 4)
             (freshMachine (scriptedDouble 0xC0 [noErr; noErr; noErr; -10868])) in
  r.1 = -10868 /\ mixerUnit_ (this r.2) = 0xA0 /\
  forall call, call ∈ fst <$> calls r.2 -> ~ isTeardown call.
Proof.
  destruct (initialize_keeps_instance testDouble (pcmFormat 2) (pcmFormat 4)
              (freshMachine (scriptedDouble 0xC0 [noErr; noErr; noErr; -10868])))
    as [(evs & Hlog & Hnone) Hunit].
  - unfold is_UInt32. simpl. lia.
  - unfold is_UInt32. simpl. lia.
  - split; [vm_compute; reflexivity|]. split.
    + rewrite Hunit; [vm_compute; reflexivity | vm_compute; discriminate].
    + rewrite Hlog. exact Hnone.
Defined.

Lemma uninitialize_addresses_created_unit_witness :
  let r := initialize testDouble (pcmFormat 2) (pcmFormat 4) (freshMachine obligingDouble) in
  let t := uninitialize testDouble r.2 in
  exists evs,
    calls t.2 = calls r.2 ++ evs /\
    fst <$> evs = [CallUninitialize 0xA0; CallInstanceDispose 0xA0] /\
    mixerUnit_ (this t.2) = 0xA0.
Proof.
  destruct (uninitialize_addresses_created_unit testDouble (pcmFormat 2) (pcmFormat 4)
              (freshMachine obligingDouble))
    as (evs & Hlog & _ & _ & Hall & Hunit).
  - vm_compute. reflexivity.
  - exists evs. split; [exact Hlog|]. split; [|exact Hunit].
    apply Hall. vm_compute. reflexivity.
Defined.

(** * Every outcome of the supply routine *)

Section RenderOutcomes.

(** The first pair of buffers whose shapes differ, if there is one among the
    first [n]. *)
Lemma first_mismatch (n : nat) inABL outABL :
  (n <= length (mBuffers inABL))%nat -> (n <= length (mBuffers outABL))%nat ->
  exists k, (k <= n)%nat /\ shapesMatchBelow k inABL outABL /\
    ((k < n)%nat ->
       exists a b, mBuffers inABL !! k = Some a /\ mBuffers outABL !! k = Some b /\
                   ~ sameShape a b).
Proof.
  induction n as [|n IH]; intros Hin Hout.
  - exists 0%nat. split; [lia|]. split; [|lia]. intros j a b Hj. lia.
  - destruct IH as (k & Hk & Hbelow & Hbad); [lia.. |].
    destruct (decide (k < n)%nat) as [Hlt | Hge].
    { exists k. split; [lia|]. split; [done|]. intros _. by apply Hbad. }
    assert (k = n) as -> by lia.
    destruct (lookup_lt_is_Some_2 (mBuffers inABL) n ltac:(lia)) as [a Ha].
    destruct (lookup_lt_is_Some_2 (mBuffers outABL) n ltac:(lia)) as [b Hb].
    destruct (decide (sameShape a b)) as [Hab | Hab].
    + exists (S n). split; [lia|]. split; [|lia].
      intros j a' b' Hj Ha' Hb'.
      destruct (decide (j = n)) as [-> | Hne].
      * congruence.
      * apply (Hbelow j); [lia | done..].
    + exists n. split; [lia|]. split; [done|]. intros _. by exists a, b.
Qed.

Lemma shapesMatchBelow_aliased k inABL outABL :
  shapesMatchBelow k inABL outABL -> shapesMatchBelow k inABL (aliased k inABL outABL).
Proof.
  intros Hm j a b' Hj Ha Hb'. rewrite aliased_lookup, Ha in Hb'.
  destruct (mBuffers outABL !! j) as [b|] eqn:Hb; [|done].
  cbn in Hb'. rewrite decide_True in Hb' by done. injection Hb' as <-.
  by apply (Hm j a b).
Qed.

Lemma AudioBufferList_eq (x y : AudioBufferList) :
  mNumberBuffers x = mNumberBuffers y -> mBuffers x = mBuffers y -> x = y.
Proof. destruct x, y. cbn. by intros -> ->. Qed.

Lemma aliased_again k inABL outABL :
  aliased k inABL (aliased k inABL outABL) = aliased k inABL outABL.
Proof.
  apply AudioBufferList_eq; [done|].
  apply list_eq. intros j. rewrite (aliased_lookup k inABL (aliased k inABL outABL)).
  rewrite aliased_lookup.
  destruct (mBuffers outABL !! j) as [b|]; cbn; [|done].
  destruct (mBuffers inABL !! j) as [a|]; [|done].
  case_decide; done.
Qed.

(** The run of the supply routine, given where the first mismatch is. *)
Lemma renderCallback_at (pThis : SystemAudioMixer) (ioData : ptr) inABL outABL (k : nat)
    mem ioActionFlags ts bus frames :
  bufferLists mem !! renderCallbackInputABL_ pThis = Some inABL ->
  bufferLists mem !! ioData = Some outABL ->
  wellFormedABL inABL -> wellFormedABL outABL ->
  mNumberBuffers inABL = mNumberBuffers outABL ->
  (k <= Z.to_nat (mNumberBuffers outABL))%nat ->
  shapesMatchBelow k inABL outABL ->
  ((k < Z.to_nat (mNumberBuffers outABL))%nat ->
     exists a b, mBuffers inABL !! k = Some a /\ mBuffers outABL !! k = Some b /\
                 ~ sameShape a b) ->
  renderCallback pThis ioActionFlags ts bus frames ioData mem
  = Some (if decide (k = Z.to_nat (mNumberBuffers outABL)) then noErr else kAudio_ParamError,
          storeBufferList ioData (aliased k inABL outABL) mem).
Proof.
  intros Hin Hout [[Hin0 Hin32] Hinlen] [[Hout0 Hout32] Houtlen] Hcount Hk Hbelow Hbad.
  set (n := Z.to_nat (mNumberBuffers outABL)) in *.
  assert (Halias : renderCallbackInputABL_ pThis = ioData -> inABL = outABL).
  { intros Heq. rewrite Heq in Hin. congruence. }
  assert (Hturn : atTurn pThis ioData inABL outABL 0 mem).
  { split; [done | by rewrite aliased_0]. }
  assert (Hpairs : forall j, (0 <= j < k)%nat ->
            exists a b, mBuffers inABL !! j = Some a /\ mBuffers outABL !! j = Some b /\
                        sameShape a b).
  { intros j Hj. apply shapesMatchBelow_pairs with (k := k); lia || done. }
  unfold renderCallback. rewrite Hin, Hout. cbn.
  rewrite Hcount, Z.eqb_refl. cbn. fold n. change 0 with (Z.of_nat 0).
  case_decide as Hkn.
  - subst k.
    by rewrite (renderCallback_loop_aliases pThis ioData inABL outABL Halias n 0 mem)
      by (done || cbn; lia).
  - by rewrite (renderCallback_loop_mismatch pThis ioData inABL outABL Halias n 0 k mem)
      by (done || (cbn; lia) || (apply Hbad; lia)).
Qed.

Lemma renderCallback_counts_differ (pThis : SystemAudioMixer) (ioData : ptr) inABL outABL
    mem ioActionFlags ts bus frames :
  bufferLists mem !! renderCallbackInputABL_ pThis = Some inABL ->
  bufferLists mem !! ioData = Some outABL ->
  mNumberBuffers inABL <> mNumberBuffers outABL ->
  renderCallback pThis ioActionFlags ts bus frames ioData mem = Some (kAudio_ParamError, mem).
Proof.
  intros Hin Hout Hcount. unfold renderCallback. rewrite Hin, Hout. cbn.
  by destruct (Z.eqb_spec (mNumberBuffers inABL) (mNumberBuffers outABL)).
Qed.

(** X7.  On buffer lists that hold as many buffers as they announce, the
    supply routine always returns, with [noErr] or [kAudio_ParamError] and
    nothing else.  It returns [noErr] exactly when the two counts are equal
    and every pair of buffers has the same channel count and byte size.  On
    every path, also the failing ones, all it may have written are data
    pointers of output buffers, each set to the data pointer of the input
    buffer of the same index: the sample bytes, the other buffer lists, and
    the count, the length, the channel counts and the byte sizes of the
    output list are as before. *)
Theorem renderCallback_outcomes (pThis : SystemAudioMixer) (ioData : ptr) inABL outABL
    mem ioActionFlags ts bus frames :
  bufferLists mem !! renderCallbackInputABL_ pThis = Some inABL ->
  bufferLists mem !! ioData = Some outABL ->
  wellFormedABL inABL -> wellFormedABL outABL ->
  exists status mem' outABL',
    renderCallback pThis ioActionFlags ts bus frames ioData mem = Some (status, mem') /\
    (status = noErr \/ status = kAudio_ParamError) /\
    (status = noErr <->
       mNumberBuffers inABL = mNumberBuffers outABL /\
       shapesMatchBelow (Z.to_nat (mNumberBuffers outABL)) inABL outABL) /\
    sampleBytes mem' = sampleBytes mem /\
    (forall p, p <> ioData -> bufferLists mem' !! p = bufferLists mem !! p) /\
    bufferLists mem' !! ioData = Some outABL' /\
    mNumberBuffers outABL' = mNumberBuffers outABL /\
    length (mBuffers outABL') = length (mBuffers outABL) /\
    forall j outBuffer, mBuffers outABL !! j = Some outBuffer ->
      exists outBuffer', mBuffers outABL' !! j = Some outBuffer' /\
        sameShape outBuffer outBuffer' /\
        (mData outBuffer' = mData outBuffer \/
         exists inBuffer, mBuffers inABL !! j = Some inBuffer /\
                          mData outBuffer' = mData inBuffer).
Proof.
  intros Hin Hout HwfIn HwfOut.
  destruct (decide (mNumberBuffers inABL = mNumberBuffers outABL)) as [Hcount | Hcount].
  - pose proof HwfIn as [[Hin0 Hin32] Hinlen]. pose proof HwfOut as [[Hout0 Hout32] Houtlen].
    set (n := Z.to_nat (mNumberBuffers outABL)).
    destruct (first_mismatch n inABL outABL) as (k & Hk & Hbelow & Hbad); [lia.. |].
    exists (if decide (k = n) then noErr else kAudio_ParamError),
      (storeBufferList ioData (aliased k inABL outABL) mem), (aliased k inABL outABL).
    split; [by apply renderCallback_at|].
    split; [case_decide; [by left | by right]|].
    split.
    { split.
      - intros Hok. split; [done|]. case_decide as Hkn; [by subst k | done].
      - intros [_ Hall]. case_decide as Hkn; [done | exfalso].
        destruct Hbad as (a & b & Ha & Hb & Hab); [lia|].
        apply Hab, (Hall k a b); [lia | done..]. }
    split; [done|].
    split; [intros p Hp; unfold storeBufferList; cbn; by rewrite lookup_insert_ne|].
    split; [unfold storeBufferList; cbn; by rewrite lookup_insert_eq|].
    split; [done|]. split; [apply aliased_length|].
    intros j b Hb. rewrite aliased_lookup, Hb. cbn.
    destruct (mBuffers inABL !! j) as [a|] eqn:Ha.
    + case_decide.
      * exists (aliasBuffer a b). split; [done|]. split; [done|]. right. by exists a.
      * exists b. split; [done|]. split; [done|]. by left.
    + exists b. split; [done|]. split; [done|]. by left.
  - exists kAudio_ParamError, mem, outABL.
    split; [by eapply renderCallback_counts_differ|].
    split; [by right|].
    split; [split; [done | by intros [? _]]|].
    split; [done|]. split; [done|]. split; [done|]. split; [done|]. split; [done|].
    intros j b Hb. exists b. split; [done|]. split; [done|]. by left.
Qed.

(** X8.  Running the supply routine again on the memory it left behind
    changes nothing: the second run returns the same status and leaves the
    memory as the first run left it.  In particular a run that failed half
    way is not repaired, and is not made worse, by a retry. *)
Theorem renderCallback_idempotent (pThis : SystemAudioMixer) (ioData : ptr) inABL outABL
    mem ioActionFlags ts bus frames status mem' :
  bufferLists mem !! renderCallbackInputABL_ pThis = Some inABL ->
  bufferLists mem !! ioData = Some outABL ->
  wellFormedABL inABL -> wellFormedABL outABL ->
  renderCallback pThis ioActionFlags ts bus frames ioData mem = Some (status, mem') ->
  renderCallback pThis ioActionFlags ts bus frames ioData mem' = Some (status, mem').
Proof.
  intros Hin Hout HwfIn HwfOut Hrun.
  destruct (decide (mNumberBuffers inABL = mNumberBuffers outABL)) as [Hcount | Hcount].
  2:{ rewrite (renderCallback_counts_differ pThis ioData inABL outABL) in Hrun by done.
      injection Hrun as <- <-. by eapply renderCallback_counts_differ. }
  pose proof HwfIn as [[Hin0 Hin32] Hinlen]. pose proof HwfOut as [[Hout0 Hout32] Houtlen].
  set (n := Z.to_nat (mNumberBuffers outABL)).
  destruct (first_mismatch n inABL outABL) as (k & Hk & Hbelow & Hbad); [lia.. |].
  rewrite (renderCallback_at pThis ioData inABL outABL k) in Hrun by done.
  fold n in Hrun. injection Hrun as <- <-.
  destruct (decide (renderCallbackInputABL_ pThis = ioData)) as [Hsame | Hother].
  { assert (inABL = outABL) as -> by (rewrite Hsame in Hin; congruence).
    rewrite aliased_self, storeBufferList_same by done.
    rewrite (renderCallback_at pThis ioData outABL outABL k) by done.
    by rewrite aliased_self, storeBufferList_same. }
  rewrite (renderCallback_at pThis ioData inABL (aliased k inABL outABL) k).
  - by rewrite aliased_again, storeBufferList_again.
  - unfold storeBufferList. cbn. by rewrite lookup_insert_ne.
  - unfold storeBufferList. cbn. by rewrite lookup_insert_eq.
  - done.
  - split; [done|]. by rewrite aliased_length.
  - done.
  - done.
  - by apply shapesMatchBelow_aliased.
  - intros Hlt. destruct (Hbad Hlt) as (a & b & Ha & Hb & Hab).
    exists a, b. split; [done|]. split; [|done].
    rewrite aliased_lookup, Hb, Ha. cbn. by rewrite decide_False by lia.
Qed.
End RenderOutcomes.

Lemma renderCallback_outcomes_witness :
  exists status mem',
    renderCallback (set_renderCallbackInputABL_ 0x1000 rawMixer)
      nullptr zeroTimeStamp 0 512 0x4000 sampleMemory = Some (status, mem') /\
    (status = noErr \/ status = kAudio_ParamError) /\
    sampleBytes mem' = sampleBytes sampleMemory.
Proof.
  destruct (renderCallback_outcomes (set_renderCallbackInputABL_ 0x1000 rawMixer) 0x4000
              inputList oddOutputList sampleMemory nullptr zeroTimeStamp 0 512)
    as (status & mem' & out' & Hrun & Hstatus & _ & Hbytes & _).
  - reflexivity.
  - reflexivity.
  - unfold wellFormedABL, is_UInt32. simpl. lia.
  - unfold wellFormedABL, is_UInt32. simpl. lia.
  - exists status, mem'. split; [exact Hrun|]. split; [exact Hstatus | exact Hbytes].
Defined.

Lemma renderCallback_idempotent_witness :
  let mem' := storeBufferList 0x4000
                {| mNumberBuffers := 2;
                   mBuffers := [monoBuffer 2048 0x5000; monoBuffer 1024 nullptr] |}
                sampleMemory in
  renderCallback (set_renderCallbackInputABL_ 0x1000 rawMixer)
    nullptr zeroTimeStamp 0 512 0x4000 mem' = Some (kAudio_ParamError, mem').
Proof.
  apply (renderCallback_idempotent (set_renderCallbackInputABL_ 0x1000 rawMixer) 0x4000
           inputList oddOutputList sampleMemory nullptr zeroTimeStamp 0 512).
  - reflexivity.
  - reflexivity.
  - unfold wellFormedABL, is_UInt32. simpl. lia.
  - unfold wellFormedABL, is_UInt32. simpl. lia.
  - vm_compute. reflexivity.
Defined.

(** * [mix] on a platform that pulls through the supply routine *)

Section EndToEnd.
Context {World : Type} (AT : AudioToolbox World).

(** X9.  On a platform whose render call pulls its input through the supply
    routine and hands back what the routine returned, [mix] is the zero-copy
    transfer end to end.  When the buffer counts differ, [mix] returns
    [kAudio_ParamError] and memory and clock are untouched.  When they are
    equal and [k] is the index of the first pair of buffers of different
    shape ([k] is the count when there is none), the first [k] output
    buffers are left pointing at the input data; [mix] returns [noErr] and
    advances the clock when [k] is the count, and returns
    [kAudio_ParamError] with the clock unchanged otherwise: a failed [mix]
    does not undo the pointers it has already written.  In every case the
    mixer still refers to the caller's input list when [mix] has returned. *)
Theorem mix_end_to_end (n : UInt32) (inputABL outputABL : ptr) inABL outABL
    (s : Machine World) :
  forwardsPull AT (world s) ->
  bufferLists (memory s) !! inputABL = Some inABL ->
  bufferLists (memory s) !! outputABL = Some outABL ->
  wellFormedABL inABL -> wellFormedABL outABL ->
  let r := mix AT n inputABL outputABL s in
  renderCallbackInputABL_ (this r.2) = inputABL /\
  (mNumberBuffers inABL <> mNumberBuffers outABL ->
     r.1 = kAudio_ParamError /\ memory r.2 = memory s /\
     sampleTime_ (this r.2) = sampleTime_ (this s)) /\
  (mNumberBuffers inABL = mNumberBuffers outABL ->
   forall k : nat,
     (k <= Z.to_nat (mNumberBuffers outABL))%nat ->
     shapesMatchBelow k inABL outABL ->
     ((k < Z.to_nat (mNumberBuffers outABL))%nat ->
        exists a b, mBuffers inABL !! k = Some a /\ mBuffers outABL !! k = Some b /\
                    ~ sameShape a b) ->
     memory r.2 = storeBufferList outputABL (aliased k inABL outABL) (memory s) /\
     if decide (k = Z.to_nat (mNumberBuffers outABL))
     then r.1 = noErr /\
          sampleTime_ (this r.2) = f64_add (sampleTime_ (this s)) (f64_of_Z n)
     else r.1 = kAudio_ParamError /\ sampleTime_ (this r.2) = sampleTime_ (this s)).
Proof.
  intros Hpull Hin Hout HwfIn HwfOut. cbv zeta. rewrite mix_run. cbn [fst snd this memory].
  set (me := set_renderCallbackInputABL_ inputABL (this s)).
  assert (Hme : renderCallbackInputABL_ me = inputABL) by done.
  split; [by case_decide|]. split.
  - intros Hcount.
    destruct (Hpull (mixerUnit_ (this s)) nullptr (mixTimeStamp (this s)) 0 n outputABL
                (renderCallback me) (memory s) kAudio_ParamError (memory s))
      as [Hstatus Hmem].
    { apply (renderCallback_counts_differ me outputABL inABL outABL); by rewrite ?Hme. }
    unfold mixRender. fold me. rewrite Hstatus, Hmem.
    split; [done|]. split; [done|]. by rewrite decide_False.
  - intros Hcount k Hk Hbelow Hbad.
    destruct (Hpull (mixerUnit_ (this s)) nullptr (mixTimeStamp (this s)) 0 n outputABL
                (renderCallback me) (memory s)
                (if decide (k = Z.to_nat (mNumberBuffers outABL))
                 then noErr else kAudio_ParamError)
                (storeBufferList outputABL (aliased k inABL outABL) (memory s)))
      as [Hstatus Hmem].
    { apply (renderCallback_at me outputABL inABL outABL k); by rewrite ?Hme. }
    unfold mixRender. fold me. rewrite Hstatus, Hmem.
    split; [done|]. case_decide.
    + by rewrite decide_True.
    + by rewrite decide_False.
Qed.
End EndToEnd.

Lemma obligingDouble_forwardsPull : forwardsPull testDouble obligingDouble.
Proof.
  intros unit flags ts bus frames ioData proc mem status mem' Hproc. cbn.
  by rewrite Hproc.
Qed.

Lemma mix_end_to_end_witness :
  let r := mix testDouble 512 0x1000 0x4000 (freshMachine obligingDouble) in
  memory r.2 = storeBufferList 0x4000 (aliased 1 inputList oddOutputList) sampleMemory /\
  r.1 = kAudio_ParamError /\
  sampleTime_ (this r.2) = f64_zero.
Proof.
  destruct (mix_end_to_end testDouble 512 0x1000 0x4000 inputList oddOutputList
              (freshMachine obligingDouble))
    as (_ & _ & Hequal).
  - exact obligingDouble_forwardsPull.
  - reflexivity.
  - reflexivity.
  - unfold wellFormedABL, is_UInt32. simpl. lia.
  - unfold wellFormedABL, is_UInt32. simpl. lia.
  - destruct (Hequal eq_refl 1%nat) as [Hmem Hrest].
    + simpl. lia.
    + intros j a b Hj Ha Hb. assert (j = 0%nat) as -> by lia.
      injection Ha as <-. injection Hb as <-. split; reflexivity.
    + intros _. exists (monoBuffer 2048 0x5800), (monoBuffer 1024 nullptr).
      split; [reflexivity|]. split; [reflexivity|]. intros [_ Hsize]. discriminate Hsize.
    + split; [exact Hmem|]. exact Hrest.
Defined.

(** * Which members each method writes *)

Section WriteSets.
Context {World : Type} (AT : AudioToolbox World).

Lemma keeps_mix {X} (g : SystemAudioMixer -> X) n inputABL outputABL :
  (forall v m, g (set_renderCallbackInputABL_ v m) = g m) ->
  (forall v m, g (set_sampleTime_ v m) = g m) ->
  forall s : Machine World, g (this (mix AT n inputABL outputABL s).2) = g (this s).
Proof.
  intros Hinput Hclock s. rewrite mix_run. cbn [snd this].
  case_decide; by rewrite ?Hclock, Hinput.
Qed.

Lemma runOp_keeps_configuration (op : Op) (s : Machine World) :
  ~ isInitializeOp op ->
  let m' := this (runOp AT op s).2 in
  mixerUnit_ m' = mixerUnit_ (this s) /\
  mixerInputChannels_ m' = mixerInputChannels_ (this s) /\
  mixerOutputChannels_ m' = mixerOutputChannels_ (this s).
Proof.
  intros Hop. cbv zeta.
  destruct op as [inputASBD outputASBD | | i j volume | n inputABL outputABL]; cbn [runOp].
  - by destruct Hop.
  - split; [|split].
    + apply (keeps_uninitialize AT (fun m _ => mixerUnit_ m)).
    + apply (keeps_uninitialize AT (fun m _ => mixerInputChannels_ m)).
    + apply (keeps_uninitialize AT (fun m _ => mixerOutputChannels_ m)).
  - split; [|split].
    + apply (keeps_setCrossoverVolume AT (fun m _ => mixerUnit_ m)).
    + apply (keeps_setCrossoverVolume AT (fun m _ => mixerInputChannels_ m)).
    + apply (keeps_setCrossoverVolume AT (fun m _ => mixerOutputChannels_ m)).
  - split; [|split]; by apply keeps_mix.
Qed.

Lemma runOp_keeps_rendering (op : Op) (s : Machine World) :
  ~ isMixOp op ->
  let m' := this (runOp AT op s).2 in
  sampleTime_ m' = sampleTime_ (this s) /\
  renderCallbackInputABL_ m' = renderCallbackInputABL_ (this s).
Proof.
  intros Hop. cbv zeta.
  destruct op as [inputASBD outputASBD | | i j volume | n inputABL outputABL]; cbn [runOp].
  - split.
    + by apply (keeps_initialize AT (fun m _ => sampleTime_ m)).
    + by apply (keeps_initialize AT (fun m _ => renderCallbackInputABL_ m)).
  - split.
    + apply (keeps_uninitialize AT (fun m _ => sampleTime_ m)).
    + apply (keeps_uninitialize AT (fun m _ => renderCallbackInputABL_ m)).
  - split.
    + apply (keeps_setCrossoverVolume AT (fun m _ => sampleTime_ m)).
    + apply (keeps_setCrossoverVolume AT (fun m _ => renderCallbackInputABL_ m)).
  - by destruct Hop.
Qed.

Lemma runOps_cons_state (op : Op) (ops : list Op) (s : Machine World) :
  (runOps AT (op :: ops) s).2 = (runOps AT ops (runOp AT op s).2).2.
Proof.
  cbn [runOps]. unfold bind, ret.
  destruct (runOp AT op s) as [status s1]. cbn [fst snd].
  by destruct (runOps AT ops s1).
Qed.

(** X10.  Over any sequence of calls on one mixer: the unit handle and the
    two channel counts are written by [initialize] only, so a sequence
    without [initialize] leaves them as they were; the sample clock and the
    reference to the input list are written by [mix] only, so a sequence
    without [mix] leaves them as they were.  In particular [uninitialize]
    followed by [initialize] does not bring the clock back to zero. *)
Theorem members_written_by (ops : list Op) (s : Machine World) :
  let m' := this (runOps AT ops s).2 in
  ((forall op, op ∈ ops -> ~ isInitializeOp op) ->
     mixerUnit_ m' = mixerUnit_ (this s) /\
     mixerInputChannels_ m' = mixerInputChannels_ (this s) /\
     mixerOutputChannels_ m' = mixerOutputChannels_ (this s)) /\
  ((forall op, op ∈ ops -> ~ isMixOp op) ->
     sampleTime_ m' = sampleTime_ (this s) /\
     renderCallbackInputABL_ m' = renderCallbackInputABL_ (this s)).
Proof.
  cbv zeta. revert s. induction ops as [|op ops IH]; intros s.
  - by cbn.
  - rewrite runOps_cons_state.
    destruct (IH (runOp AT op s).2) as [IHconf IHrend].
    split; intros Hnone.
    + destruct (runOp_keeps_configuration op s) as (H1 & H2 & H3).
      { apply Hnone. by left. }
      destruct IHconf as (I1 & I2 & I3).
      { intros op' Hin. apply Hnone. by right. }
      repeat split; congruence.
    + destruct (runOp_keeps_rendering op s) as (H1 & H2).
      { apply Hnone. by left. }
      destruct IHrend as (I1 & I2).
      { intros op' Hin. apply Hnone. by right. }
      repeat split; congruence.
Qed.
End WriteSets.

(** * What an AutoCFType wrapper releases over its life *)

Section AutoCFLifetime.

Lemma nonNull_cons h hs :
  nonNull (h :: hs) = if decide (h <> nullptr) then h :: nonNull hs else nonNull hs.
Proof. unfold nonNull. rewrite filter_cons. reflexivity. Qed.

Lemma nonNull_snoc hs h : nonNull (hs ++ [h]) = nonNull hs ++ nonNull [h].
Proof. unfold nonNull. by rewrite filter_app. Qed.

Lemma runAutoCF_conserves (ops : list AutoCFOp) : forall w given log,
  let r := runAutoCF ops w given log in
  AutoCFType.destroy r.1.1 r.2 ++ nonNull r.1.2
  ≡ₚ log ++ nonNull given ++ nonNull (AutoCFType.type_ w :: handlesReset ops).
Proof.
  induction ops as [|[h| |] ops IH]; intros w given log; cbv zeta.
  - cbn [runAutoCF handlesReset fst snd]. unfold AutoCFType.destroy, AutoCFType.CFRelease.
    rewrite nonNull_cons. case_decide.
    + change (nonNull []) with (@nil AutoCFType.CFTypeRef). solve_Permutation.
    + change (nonNull []) with (@nil AutoCFType.CFTypeRef). by rewrite !app_nil_r.
  - cbn [runAutoCF handlesReset]. unfold AutoCFType.reset.
    rewrite (IH _ given _). cbn [AutoCFType.type_].
    rewrite (nonNull_cons (AutoCFType.type_ w)). unfold AutoCFType.CFRelease.
    case_decide; solve_Permutation.
  - cbn [runAutoCF handlesReset]. unfold AutoCFType.release.
    rewrite (IH _ _ log). cbn [AutoCFType.type_].
    rewrite nonNull_snoc, !nonNull_cons.
    change (nonNull []) with (@nil AutoCFType.CFTypeRef).
    rewrite (decide_False (P := nullptr <> nullptr)) by (intros H; by apply H).
    case_decide; solve_Permutation.
  - cbn [runAutoCF handlesReset]. unfold AutoCFType.get. by rewrite (IH w given log).
Qed.

Lemma runAutoCF_released_nonNull (ops : list AutoCFOp) : forall w given log,
  (forall h, h ∈ log -> h <> nullptr) ->
  let r := runAutoCF ops w given log in
  forall h, h ∈ AutoCFType.destroy r.1.1 r.2 -> h <> nullptr.
Proof.
  assert (Hstep : forall (h0 : AutoCFType.CFTypeRef) log,
            (forall h, h ∈ log -> h <> nullptr) ->
            forall h, h ∈ (if decide (h0 <> nullptr)
                           then AutoCFType.CFRelease h0 log else log) -> h <> nullptr).
  { intros h0 log Hlog h. case_decide; [|by apply Hlog].
    unfold AutoCFType.CFRelease. rewrite elem_of_app, elem_of_cons, elem_of_nil.
    intros [? | [-> | []]]; [by apply Hlog | done]. }
  induction ops as [|[h| |] ops IH]; intros w given log Hlog; cbv zeta.
  - cbn [runAutoCF fst snd]. unfold AutoCFType.destroy. by apply Hstep.
  - cbn [runAutoCF]. unfold AutoCFType.reset. apply IH. by apply Hstep.
  - cbn [runAutoCF]. unfold AutoCFType.release. by apply IH.
  - cbn [runAutoCF]. unfold AutoCFType.get. by apply IH.
Qed.

(** X11.  Over the whole life of a wrapper, from construction through any
    sequence of [reset], [release] and [get] to its destructor: the handles
    given to [CFRelease], together with the non-null handles that [release]
    handed back to the caller, are exactly the non-null handles that were
    given to [reset], each as often as it was given.  No handle is lost, no
    handle that was handed back is released, and null is never passed to
    [CFRelease]. *)
Theorem AutoCFType_conserves_handles (ops : list AutoCFOp) :
  let r := runAutoCF ops AutoCFType.new [] [] in
  let released := AutoCFType.destroy r.1.1 r.2 in
  released ++ nonNull r.1.2 ≡ₚ nonNull (handlesReset ops) /\
  forall h, h ∈ released -> h <> nullptr.
Proof.
  cbv zeta. split.
  - rewrite (runAutoCF_conserves ops AutoCFType.new [] []).
    cbn [AutoCFType.new AutoCFType.type_ app].
    rewrite (nonNull_cons nullptr), decide_False by (intros H; by apply H). done.
  - apply runAutoCF_released_nonNull. intros h Hh. by apply elem_of_nil in Hh.
Qed.
End AutoCFLifetime.

(** X12.  [reset] does not look at the handle it is given: handed the handle
    the wrapper already holds (as in [w.reset(w.get())]), it releases that
    handle and goes on holding it, so that the destructor releases the same
    handle a second time. *)
Theorem AutoCFType_reset_to_held_releases_twice
    (w : AutoCFType.t) (log : AutoCFType.Released) :
  AutoCFType.type_ w <> nullptr ->
  let h := (AutoCFType.get w log).1.1 in
  let r := AutoCFType.reset h w log in
  AutoCFType.type_ r.1 = h /\
  r.2 = log ++ [h] /\
  AutoCFType.destroy r.1 r.2 = log ++ [h; h].
Proof.
  intros Hheld. cbv zeta. unfold AutoCFType.get, AutoCFType.reset, AutoCFType.destroy.
  cbn [fst snd AutoCFType.type_]. rewrite !decide_True by done.
  unfold AutoCFType.CFRelease. by rewrite <- app_assoc.
Qed.

Lemma AutoCFType_reset_to_held_releases_twice_witness :
  let w := (AutoCFType.reset 0x7000 AutoCFType.new []).1 in
  AutoCFType.destroy (AutoCFType.reset 0x7000 w []).1 (AutoCFType.reset 0x7000 w []).2
  = [0x7000; 0x7000].
Proof.
  destruct (AutoCFType_reset_to_held_releases_twice
              (AutoCFType.reset 0x7000 AutoCFType.new []).1 [])
    as (_ & _ & Htwice).
  - vm_compute. discriminate.
  - exact Htwice.
Defined.

Lemma members_written_by_witness :
  let s := (mix testDouble 512 0x1000 0x2000 (freshMachine obligingDouble)).2 in
  let r := runOps testDouble
             [OpUninitialize; OpInitialize (pcmFormat 2) (pcmFormat 4);
              OpSetCrossoverVolume 0 1 f32_one] s in
  f64_to_Z (sampleTime_ (this r.2)) = Some 512 /\
  renderCallbackInputABL_ (this r.2) = 0x1000.
Proof.
  destruct (members_written_by testDouble
              [OpUninitialize; OpInitialize (pcmFormat 2) (pcmFormat 4);
               OpSetCrossoverVolume 0 1 f32_one]
              (mix testDouble 512 0x1000 0x2000 (freshMachine obligingDouble)).2)
    as [_ Hrendering].
  destruct Hrendering as [Hclock Hinput].
  - intros op Hop. rewrite !elem_of_cons, elem_of_nil in Hop.
    destruct Hop as [-> | [-> | [-> | []]]]; intros [].
  - cbv zeta. rewrite Hclock, Hinput. split; vm_compute; reflexivity.
Defined.
